(** * Session relay over a DynamoDB mailbox: a shallow embedding of
    [server.py] and [cleanup_db.py].

    The relay keeps one table whose primary key is the pair
    (session_id, timestamp).  [handle_post_message] appends to it, the
    [poller_loop] of an open stream reads it, [cleanup_session] and
    [wipe_table] delete from it, and [MCPSSEResponse] wraps the ASGI
    [send] callable of the stream.

    Conventions of the embedding:
    - [time.time()] readings are rationals (seconds); float rounding is
      not represented;
    - a Python exception is a value of [exn]; code that can raise lives
      in the monad [M], which threads the state of the store;
    - library functions whose code is not part of the repository
      (uuid, json, pydantic, urllib) are the fields of [Library];
    - a call that runs in a worker thread ([anyio.to_thread.run_sync])
      is one atomic step. *)

From Stdlib Require Import ZArith NArith QArith String Ascii List Lia.
From stdpp Require Import gmap strings list fin_maps sorting pretty.

Close Scope Q_scope.
Open Scope Z_scope.

(** ** Bytes, exceptions, time *)

Definition bytes := list ascii.

Definition b (s : string) : bytes := list_ascii_of_string s.

Record exn := Exception { exn_class : string; exn_msg : string }.

(** [str(e)] *)
Definition str_exn (e : exn) : string := exn_msg e.

Definition ValueError (msg : string) : exn := Exception "ValueError" msg.
Definition IndexError (msg : string) : exn := Exception "IndexError" msg.

(** [a > b] on clock readings. *)
Definition Qgtb (x y : Q) : bool := negb (Qle_bool x y).

(** [int(x)]: truncation towards zero. *)
Definition int_of_Q (x : Q) : Z := Z.quot (Qnum x) (Zpos (Qden x)).

(** [int(time.time() * 1000000)] *)
Definition micros (t : Q) : Z := int_of_Q (t * 1000000)%Q.

(** ** The table

    One item per primary key (session_id, timestamp); the only other
    attribute the relay writes is [message]. *)

Record item := Item { session_id : string; timestamp : Z; message : string }.

Definition key : Type := string * Z.

Definition item_key (it : item) : key := (session_id it, timestamp it).

Definition item_of (kv : key * string) : item :=
  Item (fst (fst kv)) (snd (fst kv)) (snd kv).

(** The state of the store service: the items, the outcome of the coming
    service calls (an entry [Some e] makes the call raise [e]; past the
    end of the list every call succeeds), and the number of items after
    which a Query or Scan response is cut and continued through
    [LastEvaluatedKey]. *)
Record world := World {
  tbl : gmap (string * Z) string;
  faults : list (option exn);
  page_limit : positive
}.

Definition set_tbl (w : world) (m : gmap (string * Z) string) : world :=
  World m (faults w) (page_limit w).

(** ** The exception monad over the store *)

Definition M (A : Type) : Type := world -> (exn + A) * world.

Definition ret {A} (a : A) : M A := fun w => (inr a, w).

Definition bind {A B} (m : M A) (k : A -> M B) : M B :=
  fun w => match m w with
           | (inr a, w') => k a w'
           | (inl e, w') => (inl e, w')
           end.

(** [try: m  except Exception as e: h e] *)
Definition try_except {A} (m : M A) (h : exn -> M A) : M A :=
  fun w => match m w with
           | (inr a, w') => (inr a, w')
           | (inl e, w') => h e w'
           end.

(** Reading and updating the items. *)
Definition gets {A} (f : world -> A) : M A := fun w => (inr (f w), w).

Definition modify_tbl (f : gmap (string * Z) string -> gmap (string * Z) string)
  : M unit :=
  fun w => (inr tt, set_tbl w (f (tbl w))).

Global Instance M_ret : MRet M := @ret.
Global Instance M_bind : MBind M := fun A B k m => bind m k.

(** Every request to the service first learns whether it goes through. *)
Definition service_call : M unit :=
  fun w => match faults w with
           | Some e :: fs => (inl e, World (tbl w) fs (page_limit w))
           | None :: fs => (inr tt, World (tbl w) fs (page_limit w))
           | [] => (inr tt, w)
           end.

(** [table.put_item(Item=item)]: creates the item or replaces the item
    that has the same primary key. *)
Definition put_item (it : item) : M unit :=
  service_call;;
  modify_tbl (insert (item_key it) (message it)).

(** The items of one partition, by ascending sort key. *)
Definition ts_le (x y : key * string) : Prop := snd (fst x) <= snd (fst y).

Global Instance ts_le_dec : RelDecision ts_le :=
  fun x y => decide (snd (fst x) <= snd (fst y)).

Definition in_session (sid : string) (kv : key * string) : Prop :=
  fst (fst kv) = sid.

Global Instance in_session_dec sid kv : Decision (in_session sid kv) :=
  decide (fst (fst kv) = sid).

Definition session_items (m : gmap (string * Z) string) (sid : string)
  : list (key * string) :=
  merge_sort ts_le (filter (in_session sid) (map_to_list m)).

(** The sort key lies above the bound, when there is one. *)
Definition after (lo : option Z) (kv : key * string) : Prop :=
  match lo with
  | Some c => c < snd (fst kv)
  | None => True
  end.

Global Instance after_dec lo kv : Decision (after lo kv) :=
  match lo as o return Decision (after o kv) with
  | Some c => decide (c < snd (fst kv))
  | None => left I
  end.

(** One response page: the first [n] items and, when items are left, the
    key of the last item returned. *)
Definition page (n : nat) (l : list (key * string))
  : list item * option key :=
  let p := take n l in
  (map item_of p,
   if (n <? length l)%nat then fst <$> last p else None).

(** [table.query(KeyConditionExpression = Key("session_id").eq(sid)
    [& Key("timestamp").gt(c)], [ExclusiveStartKey = k])]: [Items] and
    [LastEvaluatedKey] of the response. *)
Definition table_query (sid : string) (gt : option Z) (start : option key)
  : M (list item * option key) :=
  service_call;;
  m ← gets tbl;
  n ← gets page_limit;
  mret (page (Pos.to_nat n)
          (filter (after (snd <$> start))
             (filter (after gt) (session_items m sid)))).

(** [table.scan()]: the first page of the whole table, in the order in
    which the service enumerates it; [Items] and [LastEvaluatedKey]. *)
Definition table_scan : M (list item * option key) :=
  service_call;;
  m ← gets tbl;
  n ← gets page_limit;
  mret (page (Pos.to_nat n) (map_to_list m)).

(** [with table.batch_writer() as batch: for k in ks: batch.delete_item(Key=k)].
    The writer buffers the requests, sends a batch whenever 25 are
    buffered and sends what is left on exit. *)
Definition flush (buf : list key) : M unit :=
  service_call;;
  modify_tbl (fun m => foldr delete m buf).

Fixpoint batch_delete (buf : list key) (ks : list key) : M unit :=
  match ks with
  | [] => match buf with [] => mret tt | _ => flush buf end
  | k :: ks' =>
      let buf' := buf ++ [k] in
      if (25 <=? length buf')%nat
      then flush buf';; batch_delete [] ks'
      else batch_delete buf' ks'
  end.

(** ** Library functions

    [inl e] is the exception the call raises.  For [UUID], [None] is the
    [ValueError] of a badly formed identifier. *)

Record Library := {
  JSON : Type;
  JSONRPCMessage : Type;
  UUID : string -> option N;
  parse_qs : string -> gmap string (list string);
  json_loads : bytes -> exn + JSON;
  json_dumps : JSON -> string;
  model_validate_json : string -> exn + JSONRPCMessage
}.

Definition lift {A} (r : exn + A) : M A := fun w => (r, w).

(** [str(session_id)] for the 128-bit value of a UUID: 32 hexadecimal
    digits in groups of 8, 4, 4, 4 and 12. *)
Definition hex_digit (n : N) : ascii :=
  nth (N.to_nat n) (list_ascii_of_string "0123456789abcdef") "0"%char.

Fixpoint hex_digits (len : nat) (n : N) : list ascii :=
  match len with
  | O => []
  | S len' => hex_digits len' (n / 16)%N ++ [hex_digit (n mod 16)%N]
  end.

Definition uuid_str (u : N) : string :=
  let h := hex_digits 32 u in
  string_of_list_ascii
    (take 8 h ++ b "-" ++ take 4 (drop 8 h) ++ b "-" ++ take 4 (drop 12 h)
     ++ b "-" ++ take 4 (drop 16 h) ++ b "-" ++ drop 20 h).

(** ** Ingress: [DynamoDBSseTransport.handle_post_message]
    (server.py, lines 81-110) *)

Record Response := { content : string; status_code : Z }.

Record Request := {
  (** [request.query_params.get("session_id")] *)
  query_session_id : option string;
  (** [await request.body()] *)
  body : bytes
}.

(** Truth value of an optional string: [None] and [""] are false. *)
Definition truthy (o : option string) : bool :=
  match o with
  | Some s => negb (bool_decide (s = ""))
  | None => false
  end.

(** [now] is the reading of [time.time()] taken while the item is
    built. *)
Definition handle_post_message (L : Library) (request : Request) (now : Q)
  : M Response :=
  let session_id_param := query_session_id request in
  if negb (truthy session_id_param)
  then mret {| content := "session_id required"; status_code := 400 |}
  else
    match UUID L (default "" session_id_param) with
    | None => mret {| content := "Invalid session_id"; status_code := 400 |}
    | Some session_id =>
        try_except
          (message_json ← lift (json_loads L (body request));
           put_item {| session_id := uuid_str session_id;
                       timestamp := micros now;
                       message := json_dumps L message_json |};;
           mret {| content := "Accepted"; status_code := 202 |})
          (fun e => mret {| content := str_exn e; status_code := 500 |})
    end.

(** ** Cleanup: [cleanup_session] (server.py, lines 252-291) and
    [wipe_table] (cleanup_db.py, lines 3-22) *)

(** The [while True] loop of [cleanup_session], one Query per turn. The
    turns are counted down from [fuel]; [None] stands for a loop that
    has not left through [break] after [fuel] turns. *)
Fixpoint query_all (fuel : nat) (sid : string)
    (last_evaluated_key : option key) (items : list item)
  : M (option (list item)) :=
  match fuel with
  | O => mret None
  | S fuel' =>
      response ← table_query sid None last_evaluated_key;
      let items' := items ++ fst response in
      match snd response with
      | Some k => query_all fuel' sid (Some k) items'
      | None => mret (Some items')
      end
  end.

(** Every turn but the last returns at least one item, so the loop takes
    at most one turn more than the table has items
    ([query_all_enough]). *)
Definition cleanup_session (session_id : N) : M unit :=
  n ← gets (fun w => size (tbl w));
  found ← query_all (S n) (uuid_str session_id) None [];
  match found with
  | None => mret tt
  | Some [] => mret tt
  | Some items => batch_delete [] (map item_key items)
  end.

(** [cleanup_db.wipe_table]: one Scan, then a batch delete of its
    items. *)
Definition wipe_table : M unit :=
  response ← table_scan;
  batch_delete [] (map item_key (fst response)).

(** ** The stream: [DynamoDBSseTransport.connect_sse]
    (server.py, lines 112-250)

    A session is the task group of [connect_sse]: the task
    [poller_loop], the task [run_response] and the host task that runs
    the body under [yield] ([mcp_server.run]).  A task is suspended at a
    checkpoint whenever another one runs, so cancelling the task group
    ends a suspended [poller_loop] and the host at once and takes
    [run_response] into its [finally] block. *)

Inductive task := Running | Finished.

Inductive origin := FromPoller | FromResponse.

(** What a session has done, oldest first. *)
Inductive action :=
| EnterFinally                       (* run_response reaches [finally] *)
| CloseStreams                       (* read_stream_writer.aclose(), write_stream_reader.aclose() *)
| Cleanup (o : origin) (ok : bool)   (* cleanup_session(session_id); [ok]: it returned *)
| Cancelled.                         (* tg.cancel_scope.cancel() takes effect *)

Record session (Msg : Type) := Session {
  sid : N;
  last_timestamp : Z;
  last_activity : Q;
  poller : task;
  response : task;
  host : task;
  cancelled : bool;
  streams_closed : bool;
  read_stream : list Msg;
  log : list action
}.

Arguments Session {Msg}.
Arguments sid {Msg}.
Arguments last_timestamp {Msg}.
Arguments last_activity {Msg}.
Arguments poller {Msg}.
Arguments response {Msg}.
Arguments host {Msg}.
Arguments cancelled {Msg}.
Arguments streams_closed {Msg}.
Arguments read_stream {Msg}.
Arguments log {Msg}.

Section Updates.
Context {Msg : Type}.
Implicit Type s : session Msg.

Definition set_last_timestamp s (c : Z) :=
  Session (sid s) c (last_activity s) (poller s) (response s) (host s)
    (cancelled s) (streams_closed s) (read_stream s) (log s).

Definition set_last_activity s (t : Q) :=
  Session (sid s) (last_timestamp s) t (poller s) (response s) (host s)
    (cancelled s) (streams_closed s) (read_stream s) (log s).

Definition set_poller s (t : task) :=
  Session (sid s) (last_timestamp s) (last_activity s) t (response s) (host s)
    (cancelled s) (streams_closed s) (read_stream s) (log s).

Definition set_response s (t : task) :=
  Session (sid s) (last_timestamp s) (last_activity s) (poller s) t (host s)
    (cancelled s) (streams_closed s) (read_stream s) (log s).

Definition set_host s (t : task) :=
  Session (sid s) (last_timestamp s) (last_activity s) (poller s) (response s) t
    (cancelled s) (streams_closed s) (read_stream s) (log s).

Definition set_cancelled s :=
  Session (sid s) (last_timestamp s) (last_activity s) (poller s) (response s)
    (host s) true (streams_closed s) (read_stream s) (log s).

Definition set_streams_closed s :=
  Session (sid s) (last_timestamp s) (last_activity s) (poller s) (response s)
    (host s) (cancelled s) true (read_stream s) (log s).

Definition send s (m : Msg) :=
  Session (sid s) (last_timestamp s) (last_activity s) (poller s) (response s)
    (host s) (cancelled s) (streams_closed s) (read_stream s ++ [m]) (log s).

Definition record s (a : action) :=
  Session (sid s) (last_timestamp s) (last_activity s) (poller s) (response s)
    (host s) (cancelled s) (streams_closed s) (read_stream s) (log s ++ [a]).
End Updates.

Definition is_ok {A} (r : exn + A) : bool :=
  match r with inr _ => true | inl _ => false end.

Definition INACTIVITY_TIMEOUT : Q := 10.

Record Scope := {
  (** [scope.get("query_string", b"").decode("utf-8")] *)
  query_string : string
}.

Inductive event :=
| Tick (now now' : Q)        (* poller_loop runs one turn; [now] is read at
                                its top, [now'] after a non-empty query *)
| ClientDisconnect           (* EventSourceResponse returns *)
| ResponseError              (* EventSourceResponse raises *)
| EngineExit                 (* the body under [yield] returns or raises *)
| ExternalCancel             (* the enclosing scope is cancelled *)
| Post (request : Request) (now : Q).
                             (* a POST handled by another invocation *)

Section Stream.
Variable L : Library.
Local Abbreviation Msg := (JSONRPCMessage L).
Implicit Type s : session Msg.

(** The [finally] block of [run_response] (lines 224-242); the
    [CancelScope(shield=True)] lets it run although the task is
    cancelled.  An exception of [cleanup_session] is printed. *)
Definition run_response_finally s (w : world) : session Msg * world :=
  let s1 := record (record s EnterFinally) CloseStreams in
  let s2 := set_streams_closed s1 in
  let '(r, w') := cleanup_session (sid s) w in
  (set_response (record s2 (Cleanup FromResponse (is_ok r))) Finished, w').

(** [tg.cancel_scope.cancel()] and what it does to the three tasks. *)
Definition cancel_task_group s (w : world) : session Msg * world :=
  let s1 := set_host (set_poller (set_cancelled (record s Cancelled))
                        Finished) Finished in
  match response s1 with
  | Running => run_response_finally s1 w
  | Finished => (s1, w)
  end.

(** The [for item in items] loop of [poller_loop].  A message that
    does not validate, or a [send] on the closed stream, raises inside
    the inner [try] and is printed. *)
Fixpoint forward_items (items : list item) s : session Msg :=
  match items with
  | [] => s
  | it :: rest =>
      let s1 := set_last_timestamp s (Z.max (last_timestamp s) (timestamp it)) in
      let s2 := match model_validate_json L (message it) with
                | inr m => if streams_closed s1 then s1 else send s1 m
                | inl _ => s1
                end in
      forward_items rest s2
  end.

(** One turn of the [while True] loop of [poller_loop] (lines 147-194):
    the inactivity branch, or a Query above the cursor; an exception of
    the Query is printed and the loop goes on. *)
Definition poller_turn (now now' : Q) s (w : world) : session Msg * world :=
  let elapsed := (now - last_activity s)%Q in
  if Qgtb elapsed INACTIVITY_TIMEOUT then
    let '(r, w') := cleanup_session (sid s) w in
    let s1 := record s (Cleanup FromPoller (is_ok r)) in
    let '(s2, w'') := cancel_task_group s1 w' in
    (set_poller s2 Finished, w'')
  else
    match table_query (uuid_str (sid s)) (Some (last_timestamp s)) None w with
    | (inl _, w') => (s, w')
    | (inr resp, w') =>
        let items := fst resp in
        let s1 := match items with
                  | [] => s
                  | _ => set_last_activity s now'
                  end in
        (forward_items items s1, w')
    end.

Definition step (ev : event) (st : session Msg * world)
  : session Msg * world :=
  let '(s, w) := st in
  match ev with
  | Tick now now' =>
      match poller s with
      | Running => poller_turn now now' s w
      | Finished => st
      end
  | ClientDisconnect | ResponseError =>
      match response s with
      | Running => run_response_finally s w
      | Finished => st
      end
  | EngineExit | ExternalCancel =>
      match host s with
      | Running => cancel_task_group s w
      | Finished => st
      end
  | Post request now => (s, snd (handle_post_message L request now w))
  end.

Definition run (evs : list event) (st : session Msg * world)
  : session Msg * world :=
  fold_left (fun st ev => step ev st) evs st.

(** The part of [connect_sse] before the task group: the session
    identifier is read from the query string.  [t0] is the first
    reading of [time.time()] in [poller_loop]. *)
Definition connect_sse (scope : Scope) (t0 : Q) : exn + session Msg :=
  let qs := parse_qs L (query_string scope) in
  match match qs !! "session_id" with
        | Some (v :: _) => inr (Some v)
        | Some [] => inl (IndexError "list index out of range")
        | None => inr None
        end with
  | inl e => inl e
  | inr session_id_val =>
      if negb (truthy session_id_val)
      then inl (ValueError "session_id query parameter is required")
      else
        match UUID L (default "" session_id_val) with
        | None => inl (ValueError "Invalid session_id format")
        | Some session_id =>
            inr (Session session_id 0 t0 Running Running Running
                   false false [] [])
        end
  end.

(** A whole stream request: open, then the events in turn. *)
Definition serve (scope : Scope) (t0 : Q) (evs : list event) (w : world)
  : (exn + session Msg) * world :=
  match connect_sse scope t0 with
  | inl e => (inl e, w)
  | inr s => let '(s', w') := run evs (s, w) in (inr s', w')
  end.
End Stream.

Definition closed {Msg} (s : session Msg) : Prop :=
  poller s = Finished /\ response s = Finished /\ host s = Finished.

Definition count_cleanups (l : list action) : nat :=
  length (List.filter (fun a => match a with Cleanup _ _ => true | _ => false end) l).

Definition count_from (o : origin) (l : list action) : nat :=
  length (List.filter
            (fun a => match a, o with
                      | Cleanup FromPoller _, FromPoller => true
                      | Cleanup FromResponse _, FromResponse => true
                      | _, _ => false
                      end) l).

Definition count_finally (l : list action) : nat :=
  length (List.filter (fun a => match a with EnterFinally => true | _ => false end) l).

(** ** The response wrapper: [MCPSSEResponse.__call__]
    (server.py, lines 296-313) *)

(** An ASGI message: its ["type"], its ["headers"] (raw pairs, names in
    lower case) and its ["body"] when it has one. *)
Record asgi_message := {
  msg_type : string;
  msg_headers : list (string * string);
  msg_body : option bytes
}.

Definition lower_ascii (c : ascii) : ascii :=
  let n := nat_of_ascii c in
  if ((65 <=? n) && (n <=? 90))%nat then ascii_of_nat (n + 32) else c.

Fixpoint lower (s : string) : string :=
  match s with
  | EmptyString => EmptyString
  | String c s' => String (lower_ascii c) (lower s')
  end.

(** [MutableHeaders.__setitem__] on the raw list: the first pair with
    the name is replaced and the later ones are dropped; without such a
    pair the new one goes to the end. *)
Fixpoint set_raw (k v : string) (l : list (string * string))
  : list (string * string) :=
  match l with
  | [] => [(k, v)]
  | (k', v') :: rest =>
      if bool_decide (k' = k)
      then (k, v) :: List.filter (fun kv => negb (bool_decide (fst kv = k))) rest
      else (k', v') :: set_raw k v rest
  end.

Definition set_header (key value : string) (l : list (string * string)) :=
  set_raw (lower key) value l.

(** [Headers.get]: the first value under the name. *)
Fixpoint get_raw (k : string) (l : list (string * string)) : option string :=
  match l with
  | [] => None
  | (k', v') :: rest => if bool_decide (k' = k) then Some v' else get_raw k rest
  end.

Definition get_header (key : string) (l : list (string * string)) :=
  get_raw (lower key) l.

Definition LF : ascii := ascii_of_nat 10.

Definition PADDING_SPACES : nat := N.to_nat 65536.

Global Arguments PADDING_SPACES : simpl never.

(** [b": " + b" " * 65536 + b"\n\n"] *)
Definition padding : bytes :=
  b ": " ++ repeat " "%char PADDING_SPACES ++ [LF; LF].

Global Arguments padding : simpl never.

(** [send_wrapper]: [padding_sent] tells whether the attribute of that
    name is set on the response object; the result is its new state and
    the message handed to [send]. *)
Definition send_wrapper (padding_sent : bool) (message : asgi_message)
  : bool * asgi_message :=
  if bool_decide (msg_type message = "http.response.start") then
    let headers := msg_headers message in
    let headers := set_header "X-Accel-Buffering" "no" headers in
    let headers := set_header "Transfer-Encoding" "chunked" headers in
    let headers := set_header "Content-Type" "text/event-stream" headers in
    (padding_sent,
     {| msg_type := msg_type message; msg_headers := headers;
        msg_body := msg_body message |})
  else if bool_decide (msg_type message = "http.response.body") then
    if negb padding_sent then
      (true,
       {| msg_type := msg_type message; msg_headers := msg_headers message;
          msg_body := Some (padding ++ default [] (msg_body message)) |})
    else (padding_sent, message)
  else (padding_sent, message).

(** The messages that reach [send] when the wrapped application sends
    [messages] in turn. *)
Fixpoint send_all (padding_sent : bool) (messages : list asgi_message)
  : list asgi_message :=
  match messages with
  | [] => []
  | m :: rest =>
      let '(sent, m') := send_wrapper padding_sent m in
      m' :: send_all sent rest
  end.

(** [handle_sse] answers each request with a new [MCPSSEResponse], on
    which the attribute is not set. *)
Definition MCPSSEResponse (messages : list asgi_message) : list asgi_message :=
  send_all false messages.

Definition is_start (m : asgi_message) : bool :=
  bool_decide (msg_type m = "http.response.start").

Definition is_body (m : asgi_message) : bool :=
  bool_decide (msg_type m = "http.response.body").

(** The payload of a body message: [message.get("body", b"")]. *)
Definition body_of (m : asgi_message) : bytes := default [] (msg_body m).

Definition bodies (l : list asgi_message) : list bytes :=
  map body_of (List.filter is_body l).

(** ** A library instance to evaluate the program on

    The theorems below hold for every [Library].  The instance of this
    module gives the examples something to run on: each function agrees
    with the Python library on the fragment it accepts and answers with
    an error outside of it (JSON without fractions, exponents, escapes
    or characters beyond printable ASCII; identifiers of 32 hexadecimal
    digits with optional hyphens; query strings without percent
    escapes). *)
Module Sample.

Local Unset Elimination Schemes.

Inductive json :=
| JNull
| JBool (v : bool)
| JInt (z : Z)
| JStr (s : string)
| JArr (l : list json)
| JObj (l : list (string * json)).

Local Set Elimination Schemes.

Definition is_ws (c : ascii) : bool :=
  let n := nat_of_ascii c in
  ((n =? 32) || (n =? 9) || (n =? 10) || (n =? 13))%nat.

Fixpoint skip_ws (cs : list ascii) : list ascii :=
  match cs with
  | c :: r => if is_ws c then skip_ws r else cs
  | [] => []
  end.

Definition digit_of (c : ascii) : option Z :=
  let n := nat_of_ascii c in
  if ((48 <=? n) && (n <=? 57))%nat then Some (Z.of_nat (n - 48)) else None.

Fixpoint read_digits (acc : Z) (cs : list ascii) : Z * list ascii :=
  match cs with
  | c :: r => match digit_of c with
              | Some d => read_digits (10 * acc + d) r
              | None => (acc, cs)
              end
  | [] => (acc, [])
  end.

(** An optional minus sign, then 0 or a digit string without leading
    zero, not followed by a fraction or an exponent. *)
Definition read_int (cs : list ascii) : option (Z * list ascii) :=
  let '(neg, ds) := match cs with
                    | "-"%char :: r => (true, r)
                    | _ => (false, cs)
                    end in
  match ds with
  | c :: r =>
      match digit_of c with
      | Some d =>
          let '(n, r') := if d =? 0 then (0, r) else read_digits d r in
          match r' with
          | "."%char :: _ | "e"%char :: _ | "E"%char :: _ => None
          | _ => Some (if neg then - n else n, r')
          end
      | None => None
      end
  | [] => None
  end.

(** The double quote. *)
Definition QUOTE : ascii := ascii_of_nat 34.

Definition plain_char (c : ascii) : bool :=
  let n := nat_of_ascii c in
  ((32 <=? n) && (n <=? 126) && negb (n =? 34) && negb (n =? 92))%nat.

(** The characters up to the closing quote. *)
Fixpoint read_string (cs : list ascii) : option (string * list ascii) :=
  match cs with
  | c :: r =>
      if bool_decide (c = QUOTE) then Some (EmptyString, r)
      else if plain_char c
      then match read_string r with
           | Some (s, r') => Some (String c s, r')
           | None => None
           end
      else None
  | [] => None
  end.

(** A Python dict keeps the place of the first occurrence of a name and
    the value of the last. *)
Fixpoint dict_set (k : string) (v : json) (d : list (string * json)) :=
  match d with
  | [] => [(k, v)]
  | (k', v') :: r => if bool_decide (k' = k) then (k, v) :: r
                     else (k', v') :: dict_set k v r
  end.

Fixpoint read_value (fuel : nat) (cs : list ascii) : option (json * list ascii) :=
  match fuel with
  | O => None
  | S f =>
      match skip_ws cs with
      | "n"%char :: "u"%char :: "l"%char :: "l"%char :: r => Some (JNull, r)
      | "t"%char :: "r"%char :: "u"%char :: "e"%char :: r => Some (JBool true, r)
      | "f"%char :: "a"%char :: "l"%char :: "s"%char :: "e"%char :: r =>
          Some (JBool false, r)
      | "["%char :: r =>
          match skip_ws r with
          | "]"%char :: r' => Some (JArr [], r')
          | _ => read_elements f r []
          end
      | "{"%char :: r =>
          match skip_ws r with
          | "}"%char :: r' => Some (JObj [], r')
          | _ => read_members f r []
          end
      | c :: r =>
          if bool_decide (c = QUOTE)
          then match read_string r with
               | Some (s, r') => Some (JStr s, r')
               | None => None
               end
          else match read_int (c :: r) with
               | Some (n, r') => Some (JInt n, r')
               | None => None
               end
      | [] => None
      end
  end
with read_elements (fuel : nat) (cs : list ascii) (acc : list json)
  : option (json * list ascii) :=
  match fuel with
  | O => None
  | S f =>
      match read_value f cs with
      | Some (v, r) =>
          match skip_ws r with
          | ","%char :: r' => read_elements f r' (acc ++ [v])
          | "]"%char :: r' => Some (JArr (acc ++ [v]), r')
          | _ => None
          end
      | None => None
      end
  end
with read_members (fuel : nat) (cs : list ascii) (acc : list (string * json))
  : option (json * list ascii) :=
  match fuel with
  | O => None
  | S f =>
      match skip_ws cs with
      | c :: r =>
          match (if bool_decide (c = QUOTE) then read_string r else None) with
          | Some (k, r1) =>
              match skip_ws r1 with
              | ":"%char :: r2 =>
                  match read_value f r2 with
                  | Some (v, r3) =>
                      match skip_ws r3 with
                      | ","%char :: r4 => read_members f r4 (dict_set k v acc)
                      | "}"%char :: r4 => Some (JObj (dict_set k v acc), r4)
                      | _ => None
                      end
                  | None => None
                  end
              | _ => None
              end
          | None => None
          end
      | [] => None
      end
  end.

(** Every decoding error is reported with the text Python gives for an
    error at the first character. *)
Definition JSONDecodeError : exn :=
  Exception "JSONDecodeError" "Expecting value: line 1 column 1 (char 0)".

Definition json_loads (bs : bytes) : exn + json :=
  match read_value (2 * length bs + 2) bs with
  | Some (v, r) => match skip_ws r with
                   | [] => inr v
                   | _ => inl JSONDecodeError
                   end
  | None => inl JSONDecodeError
  end.

Definition join (sep : string) (l : list string) : string :=
  match l with
  | [] => EmptyString
  | x :: r => fold_left (fun acc y => acc +:+ sep +:+ y) r x
  end.

Definition quoted (s : string) : string :=
  String QUOTE s +:+ String QUOTE EmptyString.

(** [json.dumps] with its default separators. *)
Fixpoint json_dumps (j : json) : string :=
  match j with
  | JNull => "null"
  | JBool true => "true"
  | JBool false => "false"
  | JInt z => pretty z
  | JStr s => quoted s
  | JArr l => "[" +:+ join ", " (map json_dumps l) +:+ "]"
  | JObj l =>
      "{" +:+ join ", " (map (fun kv => quoted (fst kv) +:+ ": " +:+ json_dumps (snd kv)) l)
      +:+ "}"
  end.

Fixpoint dict_get (k : string) (d : list (string * json)) : option json :=
  match d with
  | [] => None
  | (k', v) :: r => if bool_decide (k' = k) then Some v else dict_get k r
  end.

Definition ValidationError : exn :=
  Exception "ValidationError" "validation errors for JSONRPCMessage".

Definition is_id (o : option json) : bool :=
  match o with Some (JInt _) | Some (JStr _) => true | _ => false end.

Definition is_object_or_absent (o : option json) : bool :=
  match o with Some (JObj _) | None => true | _ => false end.

(** A JSON-RPC 2.0 request, notification, response or error. *)
Definition model_validate_json (s : string) : exn + json :=
  match json_loads (list_ascii_of_string s) with
  | inr (JObj d) =>
      let version := match dict_get "jsonrpc" d with
                     | Some (JStr v) => bool_decide (v = "2.0")
                     | _ => false
                     end in
      let call := match dict_get "method" d with
                  | Some (JStr _) =>
                      is_object_or_absent (dict_get "params" d)
                      && (is_id (dict_get "id" d)
                          || negb (bool_decide (is_Some (dict_get "id" d))))
                  | _ => false
                  end in
      let reply := is_id (dict_get "id" d)
                   && match dict_get "result" d, dict_get "error" d with
                      | Some (JObj _), None => true
                      | None, Some (JObj e) =>
                          match dict_get "code" e, dict_get "message" e with
                          | Some (JInt _), Some (JStr _) => true
                          | _, _ => false
                          end
                      | _, _ => false
                      end in
      if version && (call || reply) then inr (JObj d) else inl ValidationError
  | _ => inl ValidationError
  end.

Definition hex_value (c : ascii) : option N :=
  let n := nat_of_ascii c in
  if ((48 <=? n) && (n <=? 57))%nat then Some (N.of_nat (n - 48))
  else if ((97 <=? n) && (n <=? 102))%nat then Some (N.of_nat (n - 87))
  else if ((65 <=? n) && (n <=? 70))%nat then Some (N.of_nat (n - 55))
  else None.

Fixpoint read_hex (acc : N) (cs : list ascii) : option N :=
  match cs with
  | [] => Some acc
  | c :: r => match hex_value c with
              | Some d => read_hex (16 * acc + d)%N r
              | None => None
              end
  end.

Definition UUID (s : string) : option N :=
  let hex := List.filter (fun c => negb (bool_decide (c = "-"%char)))
               (list_ascii_of_string s) in
  if bool_decide (length hex = 32%nat) then read_hex 0%N hex else None.

(** The pieces of [cs] between the occurrences of [sep]. *)
Fixpoint split_on (sep : ascii) (cur : list ascii) (cs : list ascii)
  : list (list ascii) :=
  match cs with
  | [] => [cur]
  | c :: r => if bool_decide (c = sep) then cur :: split_on sep [] r
              else split_on sep (cur ++ [c]) r
  end.

(** The text before and after the first [=] of a field. *)
Fixpoint name_value (name : list ascii) (cs : list ascii)
  : list ascii * list ascii :=
  match cs with
  | [] => (name, [])
  | c :: r => if bool_decide (c = "="%char) then (name, r)
              else name_value (name ++ [c]) r
  end.

(** [urllib.parse.parse_qs]: fields with a blank value are left out. *)
Definition parse_qs (s : string) : gmap string (list string) :=
  fold_left
    (fun d field =>
       let '(n, v) := name_value [] field in
       match v with
       | [] => d
       | _ => let n := string_of_list_ascii n in
              <[n := default [] (d !! n) ++ [string_of_list_ascii v]]> d
       end)
    (split_on "&"%char [] (list_ascii_of_string s)) ∅.

End Sample.

Definition sample_lib : Library := {|
  JSON := Sample.json;
  JSONRPCMessage := Sample.json;
  UUID := Sample.UUID;
  parse_qs := Sample.parse_qs;
  json_loads := Sample.json_loads;
  json_dumps := Sample.json_dumps;
  model_validate_json := Sample.model_validate_json
|}.

(** ** Notions used in the statements *)

Ltac conjs := repeat match goal with |- _ /\ _ => split end.

Definition ts_lt (x y : key * string) : Prop := snd (fst x) < snd (fst y).

(** The items a Query of the partition [sid] has still to return when it
    resumes after [start]. *)
Definition remaining (m : gmap (string * Z) string) (sid : string)
    (start : option key) : list (key * string) :=
  filter (after (snd <$> start)) (filter (after None) (session_items m sid)).

(** The keys [cleanup_session] asks to delete. *)
Definition session_keys (m : gmap (string * Z) string) (sid : string)
  : list key :=
  map fst (session_items m sid).

(** The next request to the store service goes through. *)
Definition available (w : world) : Prop :=
  match faults w with
  | Some _ :: _ => False
  | _ => True
  end.

Definition flag (t : task) : nat :=
  match t with Finished => 1%nat | Running => 0%nat end.

(** What the log of a session holds, given the state of its tasks. *)
Definition log_inv {Msg} (s : session Msg) : Prop :=
  count_finally (log s) = flag (response s) /\
  count_from FromResponse (log s) = flag (response s) /\
  (count_from FromPoller (log s) <= flag (poller s))%nat /\
  count_cleanups (log s)
  = (count_from FromPoller (log s) + count_from FromResponse (log s))%nat.

Ltac counts :=
  unfold count_finally, count_from, count_cleanups in *; simpl in *;
  rewrite ?List.filter_app, ?List.length_app in *; simpl in *.

(** The messages of a batch that validate, in the order of the batch. *)
Definition decoded (L : Library) (items : list item) : list (JSONRPCMessage L) :=
  omap (fun it => match model_validate_json L (message it) with
                  | inr m => Some m
                  | inl _ => None
                  end) items.

(** [last_timestamp = max(last_timestamp, int(item["timestamp"]))] over
    a batch. *)
Definition max_position (cursor : Z) (items : list item) : Z :=
  fold_left Z.max (map timestamp items) cursor.

(** What the caller of an endpoint gets. *)
Inductive outcome :=
| Responded (r : Response)
| Raised (e : exn)
| Streaming.

Definition stream_outcome {Msg} (x : exn + session Msg) : outcome :=
  match x with inl e => Raised e | inr _ => Streaming end.

Definition client_error (o : outcome) : Prop :=
  match o with
  | Responded r => 400 <= status_code r < 500
  | _ => False
  end.

(** A turn of the poll loop takes the inactivity branch somewhere in
    [evs], started in the state [st]: the events before it leave the
    loop running, and the clock reading at the top of the turn is more
    than [INACTIVITY_TIMEOUT] past the last activity. *)
Definition timeout_fires (L : Library) (evs : list event)
    (st : session (JSONRPCMessage L) * world) : Prop :=
  exists pre now now' post,
    evs = pre ++ Tick now now' :: post /\
    poller (fst (run L pre st)) = Running /\
    (INACTIVITY_TIMEOUT < now - last_activity (fst (run L pre st)))%Q.

(** ** Inputs of the worked examples *)

Definition demo_id : string := "0123456789abcdef0123456789abcdef".

Definition demo_sid : N := 1512366075204170929049582354406559215%N.

(** [str(UUID(demo_id))] is ["01234567-89ab-cdef-0123-456789abcdef"]. *)
Definition demo_key (position : Z) : key := (uuid_str demo_sid, position).

Definition demo_post (text : string) : Request :=
  {| query_session_id := Some demo_id; body := b text |}.

Definition demo_scope : Scope :=
  {| query_string := "session_id=" +:+ demo_id |}.

Definition bare_scope : Scope := {| query_string := "" |}.

Definition empty_world : world := World ∅ [] 2%positive.

(** A text written with apostrophes for its double quotes. *)
Fixpoint dq (s : string) : string :=
  match s with
  | EmptyString => EmptyString
  | String c s' => String (if bool_decide (c = "'"%char) then Sample.QUOTE else c) (dq s')
  end.

Definition poison_text : string := dq "{'op': 'add', 'a': 5, 'b': 7}".

Definition request_text : string :=
  dq "{'jsonrpc': '2.0', 'id': 1, 'method': 'tools/list'}".

(** Three records of the demo session and one of another session; a
    response page holds two items. *)
Definition demo_world : world :=
  World (list_to_map [(demo_key 5, poison_text); (demo_key 7, request_text);
                      (demo_key 9, poison_text); (("other", 1), request_text)])
    [] 2%positive.

(** The same table after Cleanup of the demo session. *)
Definition clean_world : world :=
  World (list_to_map [(("other", 1), request_text)]) [] 2%positive.

(** A mailbox that holds nothing but a record that does not validate. *)
Definition poison_world : world :=
  World (list_to_map [(demo_key 5, poison_text)]) [] 2%positive.

Definition demo_item (position : Z) (text : string) : item :=
  {| session_id := uuid_str demo_sid; timestamp := position; message := text |}.

(** A session whose stream was opened at time 0. *)
Definition demo_session : session Sample.json :=
  Session demo_sid 0 0 Running Running Running false false [] [].

(** Two clock readings within the same microsecond. *)
Definition reading_1 : Q := 10000001 # 10000000.
Definition reading_2 : Q := 10000004 # 10000000.

(** The demo session after the poll loop has found it idle. *)
Definition timed_out_session : session Sample.json :=
  Session demo_sid 0 0 Finished Finished Finished true true []
    [Cleanup FromPoller true; Cancelled; EnterFinally; CloseStreams;
     Cleanup FromResponse true].

(** The demo session after a client disconnect followed by the end of
    the engine. *)
Definition ended_session : session Sample.json :=
  Session demo_sid 0 0 Finished Finished Finished true true []
    [EnterFinally; CloseStreams; Cleanup FromResponse true; Cancelled].

(** The demo session after the poll at time 1 has forwarded the request
    at position 7. *)
Definition polled_session : session Sample.json :=
  Session demo_sid 7 2 Running Running Running false false
    (decoded sample_lib [demo_item 7 request_text]) [].

(** That session after the poll loop has found it idle. *)
Definition polled_timed_out_session : session Sample.json :=
  Session demo_sid 7 2 Finished Finished Finished true true
    (decoded sample_lib [demo_item 7 request_text])
    [Cleanup FromPoller true; Cancelled; EnterFinally; CloseStreams;
     Cleanup FromResponse true].

(** ** Lemmas on the store *)

Global Instance ts_le_trans : Transitive ts_le.
Proof. intros x y z. unfold ts_le. lia. Qed.

Global Instance ts_le_total : Total ts_le.
Proof. intros x y. unfold ts_le. lia. Qed.

Lemma service_call_quiet w :
  faults w = [] -> service_call w = (inr tt, w).
Proof. intros H. unfold service_call. by rewrite H. Qed.

Lemma elem_of_session_items m sid kv :
  kv ∈ session_items m sid <-> m !! fst kv = Some (snd kv) /\ fst (fst kv) = sid.
Proof.
  unfold session_items. rewrite merge_sort_Permutation.
  rewrite list_elem_of_filter. unfold in_session.
  destruct kv as [k v]. rewrite elem_of_map_to_list. simpl. tauto.
Qed.

Lemma session_items_NoDup_ts m sid :
  NoDup (map (fun kv : key * string => snd (fst kv)) (session_items m sid)).
Proof.
  unfold session_items. rewrite merge_sort_Permutation.
  apply NoDup_fmap_2_strong.
  - intros [[s1 t1] v1] [[s2 t2] v2] H1 H2 Heq. simpl in Heq. subst t2.
    apply list_elem_of_filter in H1 as [P1 H1].
    apply list_elem_of_filter in H2 as [P2 H2].
    unfold in_session in *. simpl in *. subst.
    apply elem_of_map_to_list in H1, H2. congruence.
  - apply NoDup_filter, NoDup_map_to_list.
Qed.

Lemma StronglySorted_strict (l : list (key * string)) :
  StronglySorted ts_le l ->
  NoDup (map (fun kv : key * string => snd (fst kv)) l) ->
  StronglySorted ts_lt l.
Proof.
  induction 1 as [| x l Hs IH Hall]; intros Hnd; [constructor |].
  simpl in Hnd. apply NoDup_cons in Hnd as [Hx Hnd].
  constructor; [by apply IH |].
  rewrite Forall_forall in Hall |- *. intros y Hy.
  specialize (Hall y Hy). unfold ts_le, ts_lt in *.
  assert (snd (fst x) <> snd (fst y)).
  { intros E. apply Hx. rewrite E.
    apply list_elem_of_fmap. exists y. split; [reflexivity | exact Hy]. }
  lia.
Qed.

Lemma session_items_sorted m sid : StronglySorted ts_lt (session_items m sid).
Proof.
  apply StronglySorted_strict; [| apply session_items_NoDup_ts].
  apply StronglySorted_merge_sort; apply _.
Qed.

Lemma filter_all {A} (P : A -> Prop) `{!forall x, Decision (P x)} (l : list A) :
  Forall P l -> filter P l = l.
Proof.
  induction 1 as [| x l Hx _ IH]; [reflexivity |].
  rewrite filter_cons_True by exact Hx. by rewrite IH.
Qed.

Lemma StronglySorted_filter {A} (R : relation A) (P : A -> Prop)
    `{!forall x, Decision (P x)} (l : list A) :
  StronglySorted R l -> StronglySorted R (filter P l).
Proof.
  induction 1 as [| x l Hs IH Hall]; [constructor |].
  rewrite filter_cons. destruct (decide (P x)); [| exact IH].
  constructor; [exact IH |].
  rewrite Forall_forall in Hall |- *. intros y Hy.
  apply list_elem_of_filter in Hy as [_ Hy]. by apply Hall.
Qed.

(** In a list sorted strictly by sort key, the items above the key of
    the [n]-th item are the items after the [n]-th. *)
Lemma sorted_after_last (l : list (key * string)) (n : nat) (x : key * string) :
  StronglySorted ts_lt l ->
  last (take n l) = Some x ->
  filter (after (Some (snd (fst x)))) l = drop n l.
Proof.
  intros Hs. revert n. induction Hs as [| y l Hs IH Hall]; intros n Hlast.
  { by rewrite take_nil in Hlast. }
  destruct n as [| n]; [done |]. simpl in Hlast. simpl drop.
  destruct (take n l) as [| z p] eqn:Htake.
  - simpl in Hlast. injection Hlast as <-.
    rewrite filter_cons_False by (simpl; lia).
    assert (Hd : drop n l = l).
    { destruct n; [reflexivity |]. destruct l; [reflexivity | discriminate]. }
    rewrite Hd. apply filter_all.
    eapply Forall_impl; [exact Hall |]. intros a Ha. exact Ha.
  - assert (Hl : last (take n l) = Some x) by (rewrite Htake; exact Hlast).
    assert (Hx : x ∈ l).
    { apply last_Some_elem_of in Hl. by apply (subseteq_take n l). }
    rewrite Forall_forall in Hall. specialize (Hall x Hx).
    rewrite filter_cons_False by (unfold ts_lt in Hall; simpl; lia).
    by apply IH.
Qed.

Lemma remaining_sorted m sid start : StronglySorted ts_lt (remaining m sid start).
Proof.
  unfold remaining. do 2 apply StronglySorted_filter. apply session_items_sorted.
Qed.

Lemma remaining_all m sid : remaining m sid None = session_items m sid.
Proof.
  unfold remaining. simpl.
  rewrite !filter_all; [reflexivity | |]; by apply Forall_forall.
Qed.

Lemma remaining_next m sid start n x :
  last (take n (remaining m sid start)) = Some x ->
  remaining m sid (Some (fst x)) = drop n (remaining m sid start).
Proof.
  intros Hlast.
  rewrite <- (sorted_after_last _ n x (remaining_sorted m sid start) Hlast).
  assert (Hx : after (snd <$> start) x).
  { apply last_Some_elem_of, (subseteq_take n) in Hlast.
    unfold remaining in Hlast. by apply list_elem_of_filter in Hlast as [? _]. }
  unfold remaining at 2. rewrite list_filter_filter. unfold remaining.
  apply list_filter_iff. intros y. simpl.
  destruct start as [[s c] |]; simpl in *; [lia | tauto].
Qed.

Lemma service_call_inv w r w' :
  service_call w = (r, w') ->
  tbl w' = tbl w /\ page_limit w' = page_limit w /\
  (faults w = [] -> r = inr tt /\ w' = w).
Proof.
  unfold service_call. destruct w as [m fs n]. simpl.
  destruct fs as [| [e |] fs]; intros [= <- <-]; simpl; repeat split; congruence.
Qed.

Lemma table_query_eq sid gt start w :
  table_query sid gt start w =
  match service_call w with
  | (inl e, w') => (inl e, w')
  | (inr _, w') =>
      (inr (page (Pos.to_nat (page_limit w'))
              (filter (after (snd <$> start))
                 (filter (after gt) (session_items (tbl w') sid)))), w')
  end.
Proof.
  unfold table_query, mbind, M_bind, bind, gets, mret, M_ret, ret.
  destruct (service_call w) as [[e | []] w']; reflexivity.
Qed.

Lemma query_all_spec fuel : forall sid start items w res w',
  query_all fuel sid start items w = (res, w') ->
  tbl w' = tbl w /\ page_limit w' = page_limit w /\
  (forall r, res = inr (Some r) ->
     r = items ++ map item_of (remaining (tbl w) sid start)) /\
  ((length (remaining (tbl w) sid start) < fuel)%nat -> res <> inr None) /\
  (faults w = [] -> faults w' = [] /\ is_ok res = true).
Proof.
  induction fuel as [| fuel IH]; intros sid start items w res w' Hrun.
  { injection Hrun as <- <-. conjs; try solve [done | intros; lia]. }
  simpl in Hrun. unfold mbind, M_bind, bind in Hrun.
  rewrite table_query_eq in Hrun.
  destruct (service_call w) as [[e | []] w1] eqn:Hcall;
    apply service_call_inv in Hcall as (Htbl & Hlim & Hquiet).
  { injection Hrun as <- <-. conjs; try congruence.
    intros Hf. destruct (Hquiet Hf) as [? _]. discriminate. }
  fold (remaining (tbl w1) sid start) in Hrun. rewrite Htbl in Hrun.
  set (l := remaining (tbl w) sid start) in *.
  set (n := Pos.to_nat (page_limit w1)) in *.
  assert (Hn : (0 < n)%nat) by (subst n; lia).
  unfold page in Hrun. simpl in Hrun.
  destruct (n <? length l)%nat eqn:Hcut.
  - apply Nat.ltb_lt in Hcut.
    destruct (last (take n l)) as [x |] eqn:Hlast.
    2:{ apply last_None in Hlast. apply (f_equal length) in Hlast.
        rewrite length_take in Hlast. simpl in Hlast. lia. }
    simpl in Hrun. apply IH in Hrun as (Ht & Hp & Hres & Hfuel & Hq).
    rewrite Htbl in Ht, Hres, Hfuel.
    rewrite (remaining_next _ _ _ _ _ Hlast) in Hres, Hfuel. fold l in Hres, Hfuel.
    conjs; try congruence.
    + intros r Hr. rewrite (Hres r Hr), <- app_assoc, <- map_app, take_drop.
      reflexivity.
    + intros Hlen. apply Hfuel. rewrite length_drop. lia.
    + intros Hf. destruct (Hquiet Hf) as [_ ->]. by apply Hq.
  - apply Nat.ltb_ge in Hcut. injection Hrun as <- <-.
    conjs; try congruence.
    + intros r [= <-]. by rewrite take_ge.
    + intros Hf. destruct (Hquiet Hf) as [_ ->]. by split.
Qed.

Lemma foldr_delete_app (m : gmap (string * Z) string) (js ks : list key) :
  foldr delete (foldr delete m js) ks = foldr delete m (js ++ ks).
Proof.
  apply map_eq. intros k.
  destruct (decide (k ∈ ks)) as [Hk | Hk].
  - rewrite !lookup_foldr_delete; [reflexivity | | exact Hk].
    apply elem_of_app. by right.
  - rewrite lookup_foldr_delete_not_elem_of by exact Hk.
    destruct (decide (k ∈ js)) as [Hj | Hj].
    + rewrite !lookup_foldr_delete; [reflexivity | | exact Hj].
      apply elem_of_app. by left.
    + rewrite !lookup_foldr_delete_not_elem_of; [reflexivity | | exact Hj].
      rewrite elem_of_app. tauto.
Qed.

Lemma flush_inv buf w r w' :
  flush buf w = (r, w') ->
  page_limit w' = page_limit w /\
  (r = inr tt -> tbl w' = foldr delete (tbl w) buf) /\
  (faults w = [] -> r = inr tt /\ faults w' = []).
Proof.
  unfold flush, mbind, M_bind, bind, modify_tbl.
  destruct (service_call w) as [[e | []] w1] eqn:Hcall;
    apply service_call_inv in Hcall as (Htbl & Hlim & Hquiet);
    intros [= <- <-]; simpl; conjs; try congruence.
  - intros Hf. destruct (Hquiet Hf) as [? _]. discriminate.
  - intros Hf. destruct (Hquiet Hf) as [_ ->]. by split.
Qed.

Lemma batch_delete_spec ks : forall buf w r w',
  batch_delete buf ks w = (r, w') ->
  page_limit w' = page_limit w /\
  (r = inr tt -> tbl w' = foldr delete (tbl w) (buf ++ ks)) /\
  (faults w = [] -> r = inr tt /\ faults w' = []).
Proof.
  induction ks as [| k ks IH]; intros buf w r w' Hrun;
    cbn [batch_delete] in Hrun.
  - destruct buf as [| k0 buf].
    + injection Hrun as <- <-. by conjs.
    + rewrite app_nil_r. by apply flush_inv.
  - destruct (_ <=? _)%nat.
    + unfold mbind, M_bind, bind in Hrun.
      destruct (flush (buf ++ [k]) w) as [[e | []] w1] eqn:Hflush;
        apply flush_inv in Hflush as (Hlim & Htbl & Hquiet).
      * injection Hrun as <- <-. conjs; try congruence.
        intros Hf. destruct (Hquiet Hf) as [? _]. discriminate.
      * apply IH in Hrun as (Hlim' & Htbl' & Hquiet').
        conjs; try congruence.
        -- intros Hr. rewrite (Htbl' Hr), (Htbl eq_refl). simpl.
           rewrite foldr_delete_app, <- app_assoc. reflexivity.
        -- intros Hf. apply Hquiet'. by apply Hquiet.
    + apply IH in Hrun as (Hlim' & Htbl' & Hquiet').
      conjs; try done.
      intros Hr. rewrite (Htbl' Hr), <- app_assoc. reflexivity.
Qed.

Lemma session_items_length m sid : (length (session_items m sid) <= size m)%nat.
Proof.
  unfold session_items. rewrite merge_sort_Permutation.
  rewrite <- length_map_to_list. apply length_filter.
Qed.

Lemma remaining_length m sid start :
  (length (remaining m sid start) <= size m)%nat.
Proof.
  unfold remaining.
  etransitivity; [apply length_filter |].
  etransitivity; [apply length_filter |]. apply session_items_length.
Qed.

(** The fuel [cleanup_session] gives the loop is enough: the loop leaves
    through [break] or by an exception of the store. *)
Lemma query_all_enough sid w r w' :
  query_all (S (size (tbl w))) sid None [] w = (r, w') -> r <> inr None.
Proof.
  intros Hrun. apply query_all_spec in Hrun as (_ & _ & _ & Hfuel & _).
  apply Hfuel. pose proof (remaining_length (tbl w) sid None). lia.
Qed.

Lemma item_key_of l : map item_key (map item_of l) = map fst l.
Proof.
  rewrite map_map. apply map_ext. by intros [[s t] v].
Qed.

Lemma session_items_deleted m sid :
  session_items (foldr delete m (session_keys m sid)) sid = [].
Proof.
  apply elem_of_nil_inv. intros [k v] Hin.
  apply elem_of_session_items in Hin as [Hlook Hsid]. simpl in *.
  apply lookup_foldr_delete_Some in Hlook as [Hnot Hlook].
  apply Hnot. unfold session_keys.
  apply (list_elem_of_fmap_2 fst _ (k, v)).
  apply elem_of_session_items. by split.
Qed.

Lemma session_keys_other m sid k :
  fst k <> sid -> foldr delete m (session_keys m sid) !! k = m !! k.
Proof.
  intros Hne. apply lookup_foldr_delete_not_elem_of.
  intros Hin. unfold session_keys in Hin.
  apply list_elem_of_fmap in Hin as [[k' v] [-> Hin]].
  apply elem_of_session_items in Hin as [_ Hsid]. by apply Hne.
Qed.

Lemma cleanup_session_spec session_id w r w' :
  cleanup_session session_id w = (r, w') ->
  page_limit w' = page_limit w /\
  (r = inr tt ->
   tbl w' = foldr delete (tbl w) (session_keys (tbl w) (uuid_str session_id))) /\
  (faults w = [] -> r = inr tt /\ faults w' = []).
Proof.
  unfold cleanup_session, mbind, M_bind, bind, gets. intros Hrun.
  destruct (query_all _ _ _ _ w) as [[e | found] w1] eqn:Hq.
  - apply query_all_spec in Hq as (Htbl & Hlim & _ & _ & Hquiet).
    injection Hrun as <- <-. conjs; try congruence.
    intros Hf. by destruct (Hquiet Hf) as [_ ?].
  - apply query_all_spec in Hq as (Htbl & Hlim & Hres & Hfuel & Hquiet).
    destruct found as [items |].
    2:{ exfalso. apply Hfuel; [| reflexivity].
        pose proof (remaining_length (tbl w) (uuid_str session_id) None). lia. }
    specialize (Hres items eq_refl). simpl in Hres.
    rewrite remaining_all in Hres.
    assert (Hkeys : map item_key items
                    = session_keys (tbl w) (uuid_str session_id)).
    { rewrite Hres. apply item_key_of. }
    destruct items as [| it items].
    + injection Hrun as <- <-. simpl in Hkeys. rewrite <- Hkeys. simpl.
      conjs; try congruence. intros Hf. split; [reflexivity | by apply Hquiet].
    + rewrite Hkeys in Hrun.
      apply batch_delete_spec in Hrun as (Hlim' & Htbl' & Hquiet').
      simpl in Htbl'. rewrite Htbl in Htbl'.
      conjs; [congruence | exact Htbl' |].
      intros Hf. apply Hquiet'. by apply Hquiet.
Qed.

Lemma service_call_available w :
  available w -> exists w', service_call w = (inr tt, w') /\ tbl w' = tbl w.
Proof.
  unfold available, service_call. destruct w as [m [| [e |] fs] n]; simpl;
    intros H; try done; eauto.
Qed.

Lemma page_nil n : page n [] = ([], None).
Proof. unfold page. rewrite take_nil. reflexivity. Qed.

Lemma cleanup_session_clean session_id w :
  session_items (tbl w) (uuid_str session_id) = [] ->
  available w ->
  exists w', cleanup_session session_id w = (inr tt, w') /\ tbl w' = tbl w.
Proof.
  intros Hclean Hav.
  destruct (service_call_available w Hav) as (w1 & Hcall & Htbl).
  exists w1. split; [| exact Htbl].
  unfold cleanup_session, mbind, M_bind, bind, gets.
  cbn [query_all]. unfold mbind, M_bind, bind.
  rewrite table_query_eq, Hcall, Htbl.
  fold (remaining (tbl w) (uuid_str session_id) None).
  rewrite remaining_all, Hclean, page_nil. reflexivity.
Qed.

(** C7. Cleanup is idempotent: when [cleanup_session] has returned and the
    store answers the next request, a second call for the same session
    returns as well and leaves the items of the table as the first call
    left them; the session then has no item. *)
Theorem cleanup_session_idempotent session_id w w1 :
  cleanup_session session_id w = (inr tt, w1) ->
  available w1 ->
  exists w2,
    cleanup_session session_id w1 = (inr tt, w2) /\
    tbl w2 = tbl w1 /\
    session_items (tbl w2) (uuid_str session_id) = [].
Proof.
  intros Hfirst Hav.
  apply cleanup_session_spec in Hfirst as (_ & Htbl & _).
  specialize (Htbl eq_refl).
  assert (Hclean : session_items (tbl w1) (uuid_str session_id) = []).
  { rewrite Htbl. apply session_items_deleted. }
  destruct (cleanup_session_clean session_id w1 Hclean Hav) as (w2 & Hsecond & Hsame).
  exists w2. conjs; [exact Hsecond | exact Hsame | by rewrite Hsame].
Qed.

Lemma size_foldr_delete (m : gmap (string * Z) string) (ks : list key) :
  NoDup ks -> Forall (fun k => is_Some (m !! k)) ks ->
  size (foldr delete m ks) = (size m - length ks)%nat.
Proof.
  induction 1 as [| k ks Hk Hnd IH]; intros Hall; simpl; [lia |].
  apply Forall_cons in Hall as [Hm Hall].
  rewrite map_size_delete_Some.
  - rewrite IH by exact Hall. lia.
  - by rewrite lookup_foldr_delete_not_elem_of.
Qed.

(** C3. [wipe_table] issues one Scan and deletes the items of that
    response only: on a table with more items than a Scan response
    holds it returns normally and leaves the items beyond the first
    page in the table. *)
Theorem wipe_table_first_page_only w :
  faults w = [] ->
  (Pos.to_nat (page_limit w) < size (tbl w))%nat ->
  exists w',
    wipe_table w = (inr tt, w') /\
    size (tbl w') = (size (tbl w) - Pos.to_nat (page_limit w))%nat /\
    tbl w' <> ∅.
Proof.
  intros Hf Hbig.
  unfold wipe_table, table_scan, mbind, M_bind, bind, gets, mret, M_ret, ret.
  rewrite (service_call_quiet w Hf). unfold page. cbn [fst].
  rewrite item_key_of.
  set (n := Pos.to_nat (page_limit w)) in *.
  destruct (batch_delete [] (map fst (take n (map_to_list (tbl w)))) w)
    as [r w'] eqn:Hdel.
  apply batch_delete_spec in Hdel as (_ & Htbl & Hquiet).
  destruct (Hquiet Hf) as [-> _]. specialize (Htbl eq_refl). simpl in Htbl.
  exists w'. split; [reflexivity |].
  assert (Hsize : size (tbl w') = (size (tbl w) - n)%nat).
  { rewrite Htbl, size_foldr_delete.
    - rewrite length_map, length_take, length_map_to_list.
      rewrite Nat.min_l by (apply Nat.lt_le_incl, Hbig). reflexivity.
    - eapply sublist_NoDup; [apply (NoDup_fst_map_to_list (tbl w)) |].
      change (map fst (take n (map_to_list (tbl w))))
        with (fst <$> take n (map_to_list (tbl w))).
      rewrite fmap_take. apply sublist_take.
    - apply Forall_forall. intros k Hk.
      apply list_elem_of_fmap in Hk as [[k' v] [-> Hk]].
      apply (subseteq_take n) in Hk. apply elem_of_map_to_list in Hk.
      simpl. eauto. }
  split; [exact Hsize |].
  intros Hempty. rewrite Hempty, map_size_empty in Hsize.
  clearbody n. lia.
Qed.

(** ** Ingress *)

(** C4. A body that [json.loads] rejects is answered with status 500:
    the exception is caught by the handler that also answers store
    failures.  Nothing is written and the store is not called. *)
Theorem post_malformed_body_is_server_error
    (L : Library) (request : Request) (now : Q) (w : world)
    (session_id : N) (e : exn) :
  truthy (query_session_id request) = true ->
  UUID L (default "" (query_session_id request)) = Some session_id ->
  json_loads L (body request) = inl e ->
  handle_post_message L request now w
  = (inr {| content := str_exn e; status_code := 500 |}, w).
Proof.
  intros Hparam Huuid Hbody. unfold handle_post_message.
  rewrite Hparam, Huuid. simpl.
  unfold try_except, mbind, M_bind, bind, lift. rewrite Hbody. reflexivity.
Qed.

(** C2 (as the code has it). An accepted POST writes its record under
    the key (session, [int(time.time() * 1000000)]), the position being
    the clock reading alone.  The records of the session keep distinct
    positions and every record stored under another key is kept; when
    the reading lies above every position the session has in the table,
    the new position is strictly greater than all of them and no record
    is replaced. *)
Theorem post_position
    (L : Library) (request : Request) (now : Q) (w w' : world) (r : Response) :
  handle_post_message L request now w = (inr r, w') ->
  status_code r = 202 ->
  exists session_id message_json,
    UUID L (default "" (query_session_id request)) = Some session_id /\
    json_loads L (body request) = inr message_json /\
    tbl w' = <[(uuid_str session_id, micros now) := json_dumps L message_json]> (tbl w) /\
    NoDup (map (fun kv : key * string => snd (fst kv))
             (session_items (tbl w') (uuid_str session_id))) /\
    (forall k v, k <> (uuid_str session_id, micros now) ->
                 tbl w !! k = Some v -> tbl w' !! k = Some v) /\
    ((forall k, fst k = uuid_str session_id -> is_Some (tbl w !! k) ->
                snd k < micros now) ->
     forall k v, tbl w !! k = Some v ->
                 tbl w' !! k = Some v /\
                 (fst k = uuid_str session_id -> snd k < micros now)).
Proof.
  unfold handle_post_message.
  destruct (truthy (query_session_id request)); simpl;
    [| intros [= <- <-]; discriminate].
  destruct (UUID L _) as [session_id |]; [| intros [= <- <-]; discriminate].
  unfold try_except, mbind, M_bind, bind, lift, put_item, modify_tbl, mret,
    M_ret, ret.
  destruct (json_loads L (body request)) as [e | message_json];
    [intros [= <- <-]; discriminate |].
  unfold mbind, M_bind, bind.
  destruct (service_call w) as [[e | []] w1] eqn:Hcall;
    [intros [= <- <-]; discriminate |].
  apply service_call_inv in Hcall as (Htbl & _ & _).
  intros [= <- <-] _. exists session_id, message_json. simpl.
  rewrite Htbl. conjs; try reflexivity.
  - apply session_items_NoDup_ts.
  - intros k v Hk Hlook. by rewrite lookup_insert_ne.
  - intros Habove k v Hlook. split.
    + rewrite lookup_insert_ne; [exact Hlook |].
      intros <-.
      specialize (Habove (uuid_str session_id, micros now) eq_refl
                    (mk_is_Some _ _ Hlook)).
      simpl in Habove. lia.
    + intros Hsid. apply Habove; [exact Hsid | by eexists].
Qed.

(** ** The life of a session *)

Section StreamLemmas.
Variable L : Library.
Local Abbreviation Msg := (JSONRPCMessage L).
Implicit Type s : session Msg.

Lemma forward_items_frame items : forall s,
  let s' := forward_items L items s in
  sid s' = sid s /\ last_activity s' = last_activity s /\
  poller s' = poller s /\ response s' = response s /\ host s' = host s /\
  cancelled s' = cancelled s /\ streams_closed s' = streams_closed s /\
  log s' = log s.
Proof.
  induction items as [| it items IH]; intros s; simpl; [conjs; reflexivity |].
  destruct (model_validate_json L (message it)); simpl;
    [| destruct (streams_closed s) eqn:Hclosed];
    match goal with |- context [forward_items L items ?x] =>
      destruct (IH x) as (H1 & H2 & H3 & H4 & H5 & H6 & H7 & H8) end;
    rewrite H1, H2, H3, H4, H5, H6, H7, H8; conjs; simpl; congruence.
Qed.

Lemma run_response_finally_log s w :
  let s' := fst (run_response_finally L s w) in
  count_finally (log s') = S (count_finally (log s)) /\
  count_from FromResponse (log s') = S (count_from FromResponse (log s)) /\
  count_from FromPoller (log s') = count_from FromPoller (log s) /\
  count_cleanups (log s') = S (count_cleanups (log s)).
Proof.
  unfold run_response_finally.
  destruct (cleanup_session (sid s) w) as [r w1]. counts. conjs; lia.
Qed.

Lemma run_response_finally_tasks s w :
  let s' := fst (run_response_finally L s w) in
  poller s' = poller s /\ host s' = host s /\ response s' = Finished /\
  cancelled s' = cancelled s /\ last_timestamp s' = last_timestamp s /\
  sid s' = sid s.
Proof.
  unfold run_response_finally.
  destruct (cleanup_session (sid s) w) as [r w1]. simpl. conjs; reflexivity.
Qed.

Lemma run_response_finally_inv s w :
  response s = Running -> log_inv s ->
  log_inv (fst (run_response_finally L s w)).
Proof.
  unfold log_inv. intros Hr (H1 & H2 & H3 & H4).
  destruct (run_response_finally_log s w) as (G1 & G2 & G3 & G4).
  destruct (run_response_finally_tasks s w) as (T1 & _ & T3 & _).
  rewrite G1, G2, G3, G4, T1, T3. rewrite Hr in *. simpl in *. conjs; lia.
Qed.

Lemma cancel_task_group_closed s w :
  closed (fst (cancel_task_group L s w)).
Proof.
  unfold cancel_task_group, closed. simpl.
  destruct (response s) eqn:Hr.
  - match goal with |- context [run_response_finally L ?x w] =>
      destruct (run_response_finally_tasks x w) as (H1 & H2 & H3 & _) end.
    rewrite H1, H2, H3. conjs; reflexivity.
  - simpl. conjs; [reflexivity | exact Hr | reflexivity].
Qed.

(** Cancelling the task group adds the [finally] block of
    [run_response] to the log when that task is still running, and
    nothing of the poller. *)
Lemma cancel_task_group_log s w :
  let s' := fst (cancel_task_group L s w) in
  let k := (1 - flag (response s))%nat in
  count_finally (log s') = (count_finally (log s) + k)%nat /\
  count_from FromResponse (log s') = (count_from FromResponse (log s) + k)%nat /\
  count_from FromPoller (log s') = count_from FromPoller (log s) /\
  count_cleanups (log s') = (count_cleanups (log s) + k)%nat.
Proof.
  unfold cancel_task_group. simpl.
  destruct (response s) eqn:Hr; simpl.
  - match goal with |- context [run_response_finally L ?x w] =>
      destruct (run_response_finally_log x w) as (G1 & G2 & G3 & G4) end.
    rewrite G1, G2, G3, G4. counts. conjs; lia.
  - counts. conjs; lia.
Qed.

Lemma cancel_task_group_inv s w :
  log_inv s -> log_inv (fst (cancel_task_group L s w)).
Proof.
  unfold log_inv. intros (H1 & H2 & H3 & H4).
  destruct (cancel_task_group_log s w) as (G1 & G2 & G3 & G4).
  destruct (cancel_task_group_closed s w) as (C1 & C2 & _).
  rewrite G1, G2, G3, G4, C1, C2.
  destruct (response s), (poller s); simpl in *; conjs; lia.
Qed.

Lemma poller_turn_inv now now' s w :
  poller s = Running -> log_inv s ->
  log_inv (fst (poller_turn L now now' s w)).
Proof.
  intros Hp Hinv. unfold poller_turn.
  destruct (Qgtb _ _).
  - destruct (cleanup_session (sid s) w) as [r w1].
    match goal with |- context [cancel_task_group L ?x w1] =>
      pose proof (cancel_task_group_log x w1) as Hlog;
      pose proof (cancel_task_group_closed x w1) as Hclosed;
      destruct (cancel_task_group L x w1) as [s2 w2] end.
    destruct Hlog as (G1 & G2 & G3 & G4). destruct Hclosed as (C1 & C2 & _).
    unfold log_inv in *. destruct Hinv as (H1 & H2 & H3 & H4).
    cbn [fst] in *. simpl log. simpl poller. simpl response.
    rewrite G1, G2, G3, G4, C2. rewrite Hp in H3.
    counts. destruct (response s); simpl in *; conjs; lia.
  - destruct (table_query _ _ _ w) as [[e | resp] w1]; simpl; [exact Hinv |].
    match goal with |- context [forward_items L ?i ?x] =>
      destruct (forward_items_frame i x) as (_ & _ & H3 & H4 & _ & _ & _ & H8) end.
    unfold log_inv. rewrite H3, H4, H8.
    destruct (fst resp); exact Hinv.
Qed.

Lemma step_inv ev s w :
  log_inv s -> log_inv (fst (step L ev (s, w))).
Proof.
  intros Hinv. destruct ev; simpl.
  - destruct (poller s) eqn:Hp; [by apply poller_turn_inv | exact Hinv].
  - destruct (response s) eqn:Hr; [by apply run_response_finally_inv | exact Hinv].
  - destruct (response s) eqn:Hr; [by apply run_response_finally_inv | exact Hinv].
  - destruct (host s); [by apply cancel_task_group_inv | exact Hinv].
  - destruct (host s); [by apply cancel_task_group_inv | exact Hinv].
  - exact Hinv.
Qed.

Lemma run_cons ev evs (st : session Msg * world) :
  run L (ev :: evs) st = run L evs (step L ev st).
Proof. reflexivity. Qed.

Lemma run_inv evs : forall s w,
  log_inv s -> log_inv (fst (run L evs (s, w))).
Proof.
  induction evs as [| ev evs IH]; intros s w Hinv; [exact Hinv |].
  rewrite run_cons. pose proof (step_inv ev s w Hinv) as H.
  destruct (step L ev (s, w)) as [s1 w1]. by apply IH.
Qed.

Lemma connect_sse_inv scope t0 s :
  connect_sse L scope t0 = inr s ->
  log_inv s /\ poller s = Running /\ response s = Running /\ host s = Running
  /\ last_timestamp s = 0 /\ last_activity s = t0 /\ log s = [].
Proof.
  unfold connect_sse.
  destruct (parse_qs L (query_string scope) !! "session_id") as [[| v l] |];
    try discriminate; simpl.
  destruct (negb (bool_decide (v = ""))); simpl; [| discriminate].
  destruct (UUID L v); [| discriminate].
  intros [= <-]. unfold log_inv. simpl. conjs; reflexivity.
Qed.

End StreamLemmas.

Lemma Qgtb_lt x y : Qgtb x y = true <-> (y < x)%Q.
Proof.
  unfold Qgtb. rewrite negb_true_iff, <- not_true_iff_false, Qle_bool_iff.
  split; [apply Qnot_le_lt | apply Qlt_not_le].
Qed.

Lemma Qgtb_le x y : Qgtb x y = false <-> (x <= y)%Q.
Proof. unfold Qgtb. rewrite negb_false_iff. apply Qle_bool_iff. Qed.

Lemma max_position_le cursor items : cursor <= max_position cursor items.
Proof.
  unfold max_position. revert cursor.
  induction items as [| it items IH]; intros cursor; simpl; [lia |].
  etransitivity; [| apply IH]. lia.
Qed.

Lemma max_position_bound cursor items :
  Forall (fun it => timestamp it <= max_position cursor items) items.
Proof.
  unfold max_position. revert cursor.
  induction items as [| it items IH]; intros cursor; simpl; constructor.
  - etransitivity; [| apply (max_position_le _ items)]. lia.
  - apply IH.
Qed.

Lemma max_position_in cursor items :
  max_position cursor items = cursor \/
  exists it, it ∈ items /\ max_position cursor items = timestamp it.
Proof.
  unfold max_position. revert cursor.
  induction items as [| it items IH]; intros cursor; simpl; [by left |].
  destruct (IH (Z.max cursor (timestamp it))) as [Heq | (it' & Hin & Heq)].
  - rewrite Heq. destruct (Z.max_spec cursor (timestamp it)) as [[_ ->] | [_ ->]].
    + right. exists it. split; [apply list_elem_of_here | reflexivity].
    + by left.
  - right. exists it'. split; [by apply list_elem_of_further | exact Heq].
Qed.

Section PollLemmas.
Variable L : Library.
Local Abbreviation Msg := (JSONRPCMessage L).
Implicit Type s : session Msg.

Lemma forward_items_cursor items : forall s,
  last_timestamp (forward_items L items s)
  = max_position (last_timestamp s) items.
Proof.
  unfold max_position.
  induction items as [| it items IH]; intros s; simpl; [reflexivity |].
  rewrite IH.
  destruct (model_validate_json L (message it)); simpl; [reflexivity |].
  destruct (streams_closed s); reflexivity.
Qed.

Lemma forward_items_stream items : forall s,
  read_stream (forward_items L items s)
  = read_stream s ++ (if streams_closed s then [] else decoded L items).
Proof.
  unfold decoded.
  induction items as [| it items IH]; intros s; simpl.
  { destruct (streams_closed s); by rewrite app_nil_r. }
  rewrite IH.
  destruct (model_validate_json L (message it)) as [e | m]; simpl;
    [reflexivity |].
  destruct (streams_closed s) eqn:Hc; simpl; rewrite ?Hc; [reflexivity |].
  by rewrite <- app_assoc.
Qed.

Lemma decoded_poison items :
  Forall (fun it => is_ok (model_validate_json L (message it)) = false) items ->
  decoded L items = [].
Proof.
  unfold decoded. induction 1 as [| it items Hit _ IH]; simpl; [reflexivity |].
  destruct (model_validate_json L (message it)); [exact IH | discriminate].
Qed.

Lemma table_query_results sid c w items k w' :
  table_query sid (Some c) None w = (inr (items, k), w') ->
  tbl w' = tbl w /\
  Forall (fun it => c < timestamp it /\ session_id it = sid
                    /\ tbl w !! item_key it = Some (message it)) items /\
  StronglySorted (fun x y => timestamp x < timestamp y) items.
Proof.
  rewrite table_query_eq.
  destruct (service_call w) as [[e | []] w1] eqn:Hcall; [discriminate |].
  apply service_call_inv in Hcall as (Htbl & _ & _).
  unfold page. intros [= <- _ <-]. rewrite Htbl.
  set (l := filter _ (filter _ _)).
  assert (Hsorted : StronglySorted ts_lt l)
    by (do 2 apply StronglySorted_filter; apply session_items_sorted).
  assert (Hall : Forall (fun kv => c < snd (fst kv) /\ fst (fst kv) = sid
                                   /\ tbl w !! fst kv = Some (snd kv)) l).
  { apply Forall_forall. intros kv Hkv. subst l.
    apply list_elem_of_filter in Hkv as [_ Hkv].
    apply list_elem_of_filter in Hkv as [Hc Hkv].
    apply elem_of_session_items in Hkv as [Hlook Hsid]. by conjs. }
  set (n := Pos.to_nat (page_limit w1)). clearbody l n.
  conjs; [reflexivity | |].
  - apply Forall_fmap. eapply Forall_impl; [apply Forall_take, Hall |].
    intros [[s t] v] H. exact H.
  - assert (Htake : StronglySorted ts_lt (take n l)).
    { clear Hall. revert n. induction Hsorted as [| x l Hs IH Hx]; intros n.
      - rewrite take_nil. constructor.
      - destruct n; simpl; constructor; [apply IH |].
        by apply Forall_take. }
    induction Htake as [| x p Hs IH Hx]; simpl; constructor; [exact IH |].
    apply Forall_fmap. eapply Forall_impl; [exact Hx |].
    intros [[s t] v] H. exact H.
Qed.

Lemma poller_turn_polls now now' s w items k w1 :
  Qgtb (now - last_activity s) INACTIVITY_TIMEOUT = false ->
  table_query (uuid_str (sid s)) (Some (last_timestamp s)) None w
  = (inr (items, k), w1) ->
  poller_turn L now now' s w
  = (forward_items L items
       (match items with [] => s | _ => set_last_activity s now' end), w1).
Proof.
  intros Hq Hquery. unfold poller_turn. rewrite Hq, Hquery. reflexivity.
Qed.

Lemma poller_turn_cursor now now' s w :
  let s' := fst (poller_turn L now now' s w) in
  last_timestamp s <= last_timestamp s' /\ sid s' = sid s.
Proof.
  unfold poller_turn. destruct (Qgtb _ _).
  - destruct (cleanup_session (sid s) w) as [r w1].
    unfold cancel_task_group. simpl.
    destruct (response s).
    + match goal with |- context [run_response_finally L ?x w1] =>
        pose proof (run_response_finally_tasks L x w1) as (_ & _ & _ & _ & H5 & H6);
        destruct (run_response_finally L x w1) as [s2 w2] end.
      simpl in *. rewrite H5, H6. split; [lia | reflexivity].
    + simpl. split; [lia | reflexivity].
  - destruct (table_query _ _ _ w) as [[e | resp] w1]; simpl;
      [split; [lia | reflexivity] |].
    rewrite forward_items_cursor.
    match goal with |- context [forward_items L ?i ?x] =>
      destruct (forward_items_frame L i x) as (H1 & _) end.
    rewrite H1.
    destruct (fst resp); simpl; (split; [apply max_position_le | reflexivity]).
Qed.

Lemma step_cursor ev s w :
  let s' := fst (step L ev (s, w)) in
  last_timestamp s <= last_timestamp s' /\ sid s' = sid s.
Proof.
  destruct ev; simpl.
  - destruct (poller s); [apply poller_turn_cursor | (split; [simpl; lia | reflexivity])].
  - destruct (response s); [| (split; [simpl; lia | reflexivity])].
    destruct (run_response_finally_tasks L s w) as (_ & _ & _ & _ & H5 & H6).
    rewrite H5, H6. (split; [simpl; lia | reflexivity]).
  - destruct (response s); [| (split; [simpl; lia | reflexivity])].
    destruct (run_response_finally_tasks L s w) as (_ & _ & _ & _ & H5 & H6).
    rewrite H5, H6. (split; [simpl; lia | reflexivity]).
  - destruct (host s); [| (split; [simpl; lia | reflexivity])].
    unfold cancel_task_group. simpl. destruct (response s).
    + match goal with |- context [run_response_finally L ?x w] =>
        destruct (run_response_finally_tasks L x w) as (_ & _ & _ & _ & H5 & H6) end.
      rewrite H5, H6. simpl. (split; [simpl; lia | reflexivity]).
    + simpl. (split; [simpl; lia | reflexivity]).
  - destruct (host s); [| (split; [simpl; lia | reflexivity])].
    unfold cancel_task_group. simpl. destruct (response s).
    + match goal with |- context [run_response_finally L ?x w] =>
        destruct (run_response_finally_tasks L x w) as (_ & _ & _ & _ & H5 & H6) end.
      rewrite H5, H6. simpl. (split; [simpl; lia | reflexivity]).
    + simpl. (split; [simpl; lia | reflexivity]).
  - (split; [simpl; lia | reflexivity]).
Qed.

Lemma run_cursor evs : forall s w,
  let s' := fst (run L evs (s, w)) in
  last_timestamp s <= last_timestamp s' /\ sid s' = sid s.
Proof.
  induction evs as [| ev evs IH]; intros s w; [(split; [simpl; lia | reflexivity]) |].
  rewrite run_cons. pose proof (step_cursor ev s w) as [H1 H2].
  destruct (step L ev (s, w)) as [s1 w1]. simpl in H1, H2.
  destruct (IH s1 w1) as [H3 H4]. simpl. split; [lia | congruence].
Qed.

End PollLemmas.

(** ** The poll loop *)

(** C6. A turn of the poll loop that gets a batch goes through all of it
    in ascending position order: a record that does not decode is
    skipped, the records that decode are forwarded whatever comes before
    them, the loop and the session go on, and the cursor ends at the
    maximum position of the batch (the position of one of its records,
    above which none of them lies).  From then on no Query of the loop
    returns a record of that batch again: every later result lies
    strictly above every record of the batch. *)
Theorem poison_record_is_skipped
    (L : Library) (s : session (JSONRPCMessage L)) (w w1 : world)
    (now now' : Q) (items : list item) (k : option key) :
  poller s = Running ->
  Qgtb (now - last_activity s) INACTIVITY_TIMEOUT = false ->
  table_query (uuid_str (sid s)) (Some (last_timestamp s)) None w
  = (inr (items, k), w1) ->
  exists s',
    step L (Tick now now') (s, w) = (s', w1) /\
    StronglySorted (fun x y => timestamp x < timestamp y) items /\
    read_stream s'
    = read_stream s ++ (if streams_closed s then [] else decoded L items) /\
    poller s' = Running /\ response s' = response s /\ log s' = log s /\
    last_timestamp s' = max_position (last_timestamp s) items /\
    Forall (fun it => timestamp it <= last_timestamp s') items /\
    (items <> [] -> exists it, it ∈ items /\ last_timestamp s' = timestamp it) /\
    forall evs s2 w2,
      run L evs (s', w1) = (s2, w2) ->
      last_timestamp s' <= last_timestamp s2 /\
      forall r w3,
        table_query (uuid_str (sid s2)) (Some (last_timestamp s2)) None w2
        = (inr r, w3) ->
        Forall (fun x => Forall (fun it => timestamp it < timestamp x) items)
          (fst r).
Proof.
  intros Hp Hq Hquery.
  pose proof (poller_turn_polls L now now' s w items k w1 Hq Hquery) as Hturn.
  apply table_query_results in Hquery as (_ & Hfresh & Hsorted).
  eexists. split; [simpl; rewrite Hp; exact Hturn |].
  set (s0 := match items with [] => s | _ => set_last_activity s now' end).
  assert (Hs0 : last_timestamp s0 = last_timestamp s
                /\ streams_closed s0 = streams_closed s
                /\ read_stream s0 = read_stream s /\ poller s0 = poller s
                /\ response s0 = response s /\ log s0 = log s).
  { subst s0. destruct items; conjs; reflexivity. }
  destruct Hs0 as (E1 & E2 & E3 & E4 & E5 & E6).
  destruct (forward_items_frame L items s0) as (_ & _ & F3 & F4 & _ & _ & _ & F8).
  assert (Hcur : last_timestamp (forward_items L items s0)
                 = max_position (last_timestamp s) items)
    by (rewrite forward_items_cursor, E1; reflexivity).
  conjs.
  - exact Hsorted.
  - rewrite forward_items_stream, E2, E3. reflexivity.
  - congruence.
  - congruence.
  - congruence.
  - exact Hcur.
  - rewrite Hcur. apply max_position_bound.
  - intros Hne. rewrite Hcur.
    destruct (max_position_in (last_timestamp s) items) as [Heq | Hin];
      [| exact Hin].
    destruct items as [| it items']; [done |]. exfalso.
    apply Forall_cons in Hfresh as [(Hit & _) _].
    pose proof (max_position_bound (last_timestamp s) (it :: items')) as Hb.
    apply Forall_cons in Hb as [Hb _]. lia.
  - intros evs s2 w2 Hrun.
    pose proof (run_cursor L evs (forward_items L items s0) w1) as [Hmono Hsid].
    rewrite Hrun in Hmono, Hsid. simpl in Hmono, Hsid.
    split; [exact Hmono |].
    intros [its k'] w3 Hlater.
    apply table_query_results in Hlater as (_ & Habove & _).
    simpl. eapply Forall_impl; [exact Habove |].
    intros x (Hx & _). simpl in Hx.
    eapply Forall_impl; [apply (max_position_bound (last_timestamp s) items) |].
    intros it Hit. simpl in Hit. rewrite <- Hcur in Hit. lia.
Qed.

(** C10. A turn of the poll loop that gets a non-empty batch sets
    [last_activity] to the clock reading taken right after the Query,
    whether or not a record of the batch decodes.  When none does,
    nothing is forwarded, and still the next turn does not time out
    unless more than [INACTIVITY_TIMEOUT] has passed since that
    reading. *)
Theorem poison_batch_resets_activity
    (L : Library) (s : session (JSONRPCMessage L)) (w w1 : world)
    (now now' : Q) (items : list item) (k : option key) :
  poller s = Running ->
  Qgtb (now - last_activity s) INACTIVITY_TIMEOUT = false ->
  table_query (uuid_str (sid s)) (Some (last_timestamp s)) None w
  = (inr (items, k), w1) ->
  items <> [] ->
  exists s',
    step L (Tick now now') (s, w) = (s', w1) /\
    last_activity s' = now' /\
    poller s' = Running /\ response s' = response s /\ log s' = log s /\
    (Forall (fun it => is_ok (model_validate_json L (message it)) = false) items ->
     read_stream s' = read_stream s) /\
    forall t t' w2,
      (t - now' <= INACTIVITY_TIMEOUT)%Q ->
      poller (fst (step L (Tick t t') (s', w2))) = Running.
Proof.
  intros Hp Hq Hquery Hne.
  pose proof (poller_turn_polls L now now' s w items k w1 Hq Hquery) as Hturn.
  assert (Hs0 : match items with [] => s | _ => set_last_activity s now' end
                = set_last_activity s now') by (by destruct items).
  rewrite Hs0 in Hturn. clear Hs0.
  destruct (forward_items_frame L items (set_last_activity s now'))
    as (_ & F2 & F3 & F4 & _ & _ & F7 & F8).
  pose proof (forward_items_stream L items (set_last_activity s now')) as Hstream.
  set (s' := forward_items L items (set_last_activity s now')) in *.
  clearbody s'. simpl in F2, F3, F4, F7, F8, Hstream. rewrite Hp in F3.
  exists s'. conjs; try assumption.
  - simpl. rewrite Hp. exact Hturn.
  - intros Hpoison. rewrite Hstream, (decoded_poison L items Hpoison).
    destruct (streams_closed s); by rewrite app_nil_r.
  - intros t t' w2 Hle. simpl. rewrite F3.
    unfold poller_turn. rewrite F2.
    apply Qgtb_le in Hle. rewrite Hle.
    destruct (table_query _ _ _ w2) as [[e | resp] w3]; simpl.
    + exact F3.
    + match goal with |- context [forward_items L ?i ?x] =>
        destruct (forward_items_frame L i x) as (_ & _ & G3 & _) end.
      rewrite G3. destruct (fst resp); simpl; exact F3.
Qed.

(** ** Teardown *)

Section TeardownLemmas.
Variable L : Library.
Local Abbreviation Msg := (JSONRPCMessage L).
Implicit Type s : session Msg.

Lemma run_response_finally_world s w :
  snd (run_response_finally L s w) = snd (cleanup_session (sid s) w).
Proof.
  unfold run_response_finally.
  destruct (cleanup_session (sid s) w) as [r w1]. reflexivity.
Qed.

Lemma step_closed ev s w : closed s -> fst (step L ev (s, w)) = s.
Proof.
  intros (Hp & Hr & Hh). destruct ev; simpl; rewrite ?Hp, ?Hr, ?Hh; reflexivity.
Qed.

Lemma run_closed evs : forall s w, closed s -> fst (run L evs (s, w)) = s.
Proof.
  induction evs as [| ev evs IH]; intros s w Hc; [reflexivity |].
  rewrite run_cons. pose proof (step_closed ev s w Hc) as H.
  destruct (step L ev (s, w)) as [s1 w1]. simpl in H. subst s1. by apply IH.
Qed.

(** The turn of the poll loop that finds the session idle for too
    long: the loop cleans up, cancels the task group and ends. *)
Lemma poller_turn_timeout now now' s w :
  Qgtb (now - last_activity s) INACTIVITY_TIMEOUT = true ->
  let s' := fst (poller_turn L now now' s w) in
  closed s' /\ cancelled s' = true /\ sid s' = sid s /\
  count_from FromPoller (log s') = S (count_from FromPoller (log s)).
Proof.
  intros Hq. unfold poller_turn. rewrite Hq.
  destruct (cleanup_session (sid s) w) as [r w1].
  match goal with |- context [cancel_task_group L ?x w1] =>
    pose proof (cancel_task_group_log L x w1) as (_ & _ & G3 & _);
    pose proof (cancel_task_group_closed L x w1) as (C1 & C2 & C3);
    assert (Hc : cancelled (fst (cancel_task_group L x w1)) = true
                 /\ sid (fst (cancel_task_group L x w1)) = sid s) end.
  { unfold cancel_task_group. simpl. destruct (response s); simpl; [| done].
    match goal with |- context [run_response_finally L ?x w1] =>
      destruct (run_response_finally_tasks L x w1) as (_ & _ & _ & H4 & _ & H6) end.
    rewrite H4, H6. done. }
  destruct (cancel_task_group L _ w1) as [s2 w2]. simpl in *.
  destruct Hc as [Hc Hsid].
  unfold closed. simpl. conjs; try done.
  rewrite G3. counts. lia.
Qed.

End TeardownLemmas.

Section TriggerLemmas.
Variable L : Library.
Local Abbreviation Msg := (JSONRPCMessage L).
Implicit Type s : session Msg.

Lemma run_app pre post (st : session Msg * world) :
  run L (pre ++ post) st = run L post (run L pre st).
Proof. apply fold_left_app. Qed.

(** Only the inactivity branch of the poll loop adds a Cleanup of the
    poll loop to the log. *)
Lemma step_poller_cleanups ev s w :
  count_from FromPoller (log (fst (step L ev (s, w))))
  <> count_from FromPoller (log s) ->
  exists now now',
    ev = Tick now now' /\ poller s = Running /\
    (INACTIVITY_TIMEOUT < now - last_activity s)%Q.
Proof.
  destruct ev as [now now' | | | | | request now]; simpl.
  - destruct (poller s) eqn:Hp; [| done].
    unfold poller_turn.
    destruct (Qgtb (now - last_activity s) INACTIVITY_TIMEOUT) eqn:Hq.
    + intros _. exists now, now'. by apply Qgtb_lt in Hq.
    + destruct (table_query _ _ _ w) as [[e | resp] w1]; simpl; [done |].
      match goal with |- context [forward_items L ?i ?x] =>
        destruct (forward_items_frame L i x) as (_ & _ & _ & _ & _ & _ & _ & H8) end.
      rewrite H8. by destruct (fst resp).
  - destruct (response s); [| done].
    destruct (run_response_finally_log L s w) as (_ & _ & G3 & _). done.
  - destruct (response s); [| done].
    destruct (run_response_finally_log L s w) as (_ & _ & G3 & _). done.
  - destruct (host s); [| done].
    destruct (cancel_task_group_log L s w) as (_ & _ & G3 & _). done.
  - destruct (host s); [| done].
    destruct (cancel_task_group_log L s w) as (_ & _ & G3 & _). done.
  - done.
Qed.

Lemma timeout_fires_cons ev evs (st : session Msg * world) :
  timeout_fires L evs (step L ev st) -> timeout_fires L (ev :: evs) st.
Proof.
  intros (pre & now & now' & post & -> & Hp & Hidle).
  exists (ev :: pre), now, now', post. by rewrite run_cons.
Qed.

Lemma run_poller_cleanups evs : forall s w,
  count_from FromPoller (log (fst (run L evs (s, w))))
  <> count_from FromPoller (log s) ->
  timeout_fires L evs (s, w).
Proof.
  induction evs as [| ev evs IH]; intros s w Hne; [done |].
  rewrite run_cons in Hne.
  destruct (decide (count_from FromPoller (log (fst (step L ev (s, w))))
                    = count_from FromPoller (log s))) as [Heq | Hstep].
  - apply timeout_fires_cons.
    destruct (step L ev (s, w)) as [s1 w1]. apply IH. simpl in Heq. congruence.
  - apply step_poller_cleanups in Hstep as (now & now' & -> & Hp & Hidle).
    by exists [], now, now', evs.
Qed.

Lemma timeout_fires_cleanup evs s w :
  timeout_fires L evs (s, w) ->
  (1 <= count_from FromPoller (log (fst (run L evs (s, w)))))%nat.
Proof.
  intros (pre & now & now' & post & -> & Hp & Hidle).
  rewrite run_app, run_cons.
  destruct (run L pre (s, w)) as [s1 w1]. simpl in Hp, Hidle. simpl step.
  rewrite Hp. apply Qgtb_lt in Hidle.
  pose proof (poller_turn_timeout L now now' s1 w1 Hidle) as (Hc & _ & _ & Hn).
  destruct (poller_turn L now now' s1 w1) as [s2 w2]. simpl in Hc, Hn.
  rewrite (run_closed L post s2 w2 Hc), Hn. lia.
Qed.

(** A session whose poll loop is running: the loop calls Cleanup in
    what follows exactly when one of its turns takes the inactivity
    branch. *)
Lemma poller_cleanup_iff evs s w :
  log_inv s -> poller s = Running ->
  count_from FromPoller (log (fst (run L evs (s, w)))) = 1%nat
  <-> timeout_fires L evs (s, w).
Proof.
  intros Hinv Hp.
  pose proof (run_inv L evs s w Hinv) as (_ & _ & Hle & _).
  destruct Hinv as (_ & _ & H3 & _). rewrite Hp in H3. simpl in H3.
  split.
  - intros H1. apply run_poller_cleanups. lia.
  - intros Hfires. apply timeout_fires_cleanup in Hfires.
    destruct (poller (fst (run L evs (s, w)))); simpl in Hle; lia.
Qed.

End TriggerLemmas.

(** C1 (as the code has it). However a session ends, the [finally]
    block of [run_response], which closes the streams and calls Cleanup,
    has run exactly once by the time the three tasks are finished.  The
    poll loop calls Cleanup itself when it detects the inactivity
    timeout, and does so at most once.  So Cleanup has been called once
    or twice and never zero times: twice exactly when a turn of the
    running poll loop has found the session idle for more than
    [INACTIVITY_TIMEOUT], once otherwise.  A session starts with its
    three tasks running and its last activity at [t0].  For the first
    trigger of a session, that is the event [ev] that comes next while
    the three tasks are still running, after any events [pre] that left
    them so (polls that do not time out, POSTs): Cleanup is called
    twice when it is the inactivity timeout, once when it is the end of
    the engine or an external cancellation, and when it is a client
    disconnect or an error of the response, twice if the poll loop
    times out in what follows and once if not. *)
Theorem cleanup_once_or_twice
    (L : Library) (scope : Scope) (t0 : Q) (evs : list event) (w w' : world)
    (s0 s : session (JSONRPCMessage L)) :
  connect_sse L scope t0 = inr s0 ->
  serve L scope t0 evs w = (inr s, w') ->
  closed s ->
  count_finally (log s) = 1%nat /\
  count_from FromResponse (log s) = 1%nat /\
  (count_from FromPoller (log s) <= 1)%nat /\
  count_cleanups (log s) = (1 + count_from FromPoller (log s))%nat /\
  (count_cleanups (log s) = 2%nat <-> timeout_fires L evs (s0, w)) /\
  (poller s0 = Running /\ response s0 = Running /\ host s0 = Running /\
   last_activity s0 = t0) /\
  (forall pre ev post s1 w1,
     evs = pre ++ ev :: post ->
     run L pre (s0, w) = (s1, w1) ->
     poller s1 = Running -> response s1 = Running -> host s1 = Running ->
     (forall now now',
        ev = Tick now now' ->
        (INACTIVITY_TIMEOUT < now - last_activity s1)%Q ->
        count_cleanups (log s) = 2%nat) /\
     (ev = EngineExit \/ ev = ExternalCancel ->
      count_cleanups (log s) = 1%nat) /\
     (ev = ClientDisconnect \/ ev = ResponseError ->
      (count_cleanups (log s) = 2%nat
       <-> timeout_fires L post (step L ev (s1, w1))))).
Proof.
  intros Hopen. unfold serve. rewrite Hopen.
  apply connect_sse_inv in Hopen as (Hinv & Hp0 & Hr0 & Hh0 & _ & Ht0 & _).
  pose proof (run_inv L evs s0 w Hinv) as Hrun.
  pose proof (poller_cleanup_iff L evs s0 w Hinv Hp0) as Hiff.
  destruct (run L evs (s0, w)) as [s' w1'] eqn:Heq. intros [= <- <-].
  intros (Hp & Hr & Hh). simpl in Hrun, Hiff.
  destruct Hrun as (H1 & H2 & H3 & H4). rewrite Hr in H1, H2. rewrite Hp in H3.
  simpl in H1, H2, H3.
  assert (Hall : count_cleanups (log s') = (1 + count_from FromPoller (log s'))%nat)
    by lia.
  assert (Htwice : count_cleanups (log s') = 2%nat
                   <-> timeout_fires L evs (s0, w))
    by (rewrite <- Hiff; lia).
  conjs; try done.
  intros pre ev post s1 w1 -> Hpre Hp1 Hr1 Hh1.
  pose proof (run_inv L pre s0 w Hinv) as Hinv1.
  rewrite Hpre in Hinv1. simpl in Hinv1.
  rewrite run_app, Hpre, run_cons in Heq.
  conjs.
  - intros now now' -> Hidle. apply Htwice.
    exists pre, now, now', post. rewrite Hpre. done.
  - intros Hev.
    assert (Hstep : step L ev (s1, w1) = cancel_task_group L s1 w1)
      by (destruct Hev as [-> | ->]; simpl; rewrite Hh1; reflexivity).
    rewrite Hstep in Heq.
    pose proof (cancel_task_group_log L s1 w1) as (_ & _ & G3 & _).
    pose proof (cancel_task_group_closed L s1 w1) as Hc.
    destruct (cancel_task_group L s1 w1) as [s2 w2]. simpl in Hc, G3.
    pose proof (run_closed L post s2 w2 Hc) as Hsame.
    rewrite Heq in Hsame. simpl in Hsame. subst s2.
    destruct Hinv1 as (_ & _ & I3 & _). rewrite Hp1 in I3. simpl in I3.
    rewrite Hall, G3. lia.
  - intros Hev.
    assert (Hstep : step L ev (s1, w1) = run_response_finally L s1 w1)
      by (destruct Hev as [-> | ->]; simpl; rewrite Hr1; reflexivity).
    rewrite Hstep in Heq |- *.
    pose proof (run_response_finally_inv L s1 w1 Hr1 Hinv1) as Hinv2.
    pose proof (run_response_finally_tasks L s1 w1) as (T1 & _).
    destruct (run_response_finally L s1 w1) as [s2 w2]. simpl in Hinv2, T1.
    rewrite Hp1 in T1.
    pose proof (poller_cleanup_iff L post s2 w2 Hinv2 T1) as Hiff2.
    rewrite Heq in Hiff2. simpl in Hiff2. rewrite <- Hiff2. lia.
Qed.

(** C8. A turn of the poll loop that finds the session idle for more
    than [INACTIVITY_TIMEOUT] tears the session down: the loop stops,
    the task group is cancelled, every task is finished, and with the
    store answering its requests no record of the session is left in
    the table.  No later event changes the session. *)
Theorem idle_session_is_torn_down
    (L : Library) (s : session (JSONRPCMessage L)) (w : world) (now now' : Q) :
  poller s = Running ->
  faults w = [] ->
  (INACTIVITY_TIMEOUT < now - last_activity s)%Q ->
  exists s' w',
    step L (Tick now now') (s, w) = (s', w') /\
    closed s' /\ cancelled s' = true /\
    session_items (tbl w') (uuid_str (sid s)) = [] /\
    forall evs w2, fst (run L evs (s', w2)) = s'.
Proof.
  intros Hp Hf Hidle. apply Qgtb_lt in Hidle.
  pose proof (poller_turn_timeout L now now' s w Hidle) as (Hc & Hcan & _ & _).
  assert (Hw : session_items (tbl (snd (poller_turn L now now' s w)))
                 (uuid_str (sid s)) = []).
  { unfold poller_turn. rewrite Hidle.
    destruct (cleanup_session (sid s) w) as [r w1] eqn:Hclean.
    apply cleanup_session_spec in Hclean as (_ & Htbl & Hquiet).
    destruct (Hquiet Hf) as [-> Hf1]. specialize (Htbl eq_refl).
    assert (Hclean1 : session_items (tbl w1) (uuid_str (sid s)) = [])
      by (rewrite Htbl; apply session_items_deleted).
    unfold cancel_task_group. simpl. destruct (response s); simpl.
    - match goal with |- context [run_response_finally L ?x w1] =>
        pose proof (run_response_finally_world L x w1) as Hworld;
        destruct (run_response_finally L x w1) as [s2 w2] end.
      simpl in *. rewrite Hworld.
      destruct (cleanup_session_clean (sid s) w1 Hclean1) as (w3 & E1 & E2).
      + unfold available. by rewrite Hf1.
      + rewrite E1. simpl. by rewrite E2.
    - exact Hclean1. }
  destruct (poller_turn L now now' s w) as [s' w'] eqn:Hturn. simpl in *.
  exists s', w'. conjs; try done.
  - by rewrite Hp.
  - intros evs w2. by apply run_closed.
Qed.

(** ** Opening a stream *)

(** C5 (as the code has it). A stream request whose session identifier
    is missing, empty or badly formed ends with a [ValueError] raised
    out of [connect_sse], not with a response, before the task group
    exists: whatever would have followed, the store is neither called
    nor written. *)
Theorem stream_open_raises_before_store
    (L : Library) (scope : Scope) (t0 : Q) (evs : list event) (w : world) :
  parse_qs L (query_string scope) !! "session_id" = None \/
  (exists v rest,
     parse_qs L (query_string scope) !! "session_id" = Some (v :: rest) /\
     (v = "" \/ UUID L v = None)) ->
  exists msg, serve L scope t0 evs w = (inl (ValueError msg), w).
Proof.
  unfold serve, connect_sse.
  intros [-> | (v & rest & -> & [-> | Hbad])]; simpl.
  - eexists. reflexivity.
  - eexists. reflexivity.
  - destruct (negb (bool_decide (v = ""))); simpl.
    + rewrite Hbad. eexists. reflexivity.
    + eexists. reflexivity.
Qed.

(** ** The response wrapper *)

Lemma get_raw_set_raw_eq k v l : get_raw k (set_raw k v l) = Some v.
Proof.
  induction l as [| [k' v'] l IH]; simpl.
  - by rewrite bool_decide_eq_true_2.
  - destruct (bool_decide (k' = k)) eqn:E; simpl.
    + by rewrite bool_decide_eq_true_2.
    + rewrite E. exact IH.
Qed.

Lemma get_raw_filter_ne k k' l :
  k <> k' ->
  get_raw k (List.filter (fun kv => negb (bool_decide (fst kv = k'))) l)
  = get_raw k l.
Proof.
  intros Hne. induction l as [| [k0 v0] l IH]; simpl; [reflexivity |].
  destruct (bool_decide (k0 = k')) eqn:E; simpl.
  - apply bool_decide_eq_true in E. subst k0.
    rewrite bool_decide_eq_false_2 by congruence. exact IH.
  - rewrite IH. reflexivity.
Qed.

Lemma get_raw_set_raw_ne k k' v l :
  k <> k' -> get_raw k (set_raw k' v l) = get_raw k l.
Proof.
  intros Hne. induction l as [| [k0 v0] l IH]; simpl.
  - by rewrite bool_decide_eq_false_2 by congruence.
  - destruct (bool_decide (k0 = k')) eqn:E; simpl.
    + apply bool_decide_eq_true in E. subst k0.
      rewrite !bool_decide_eq_false_2 by congruence.
      by apply get_raw_filter_ne.
    + rewrite IH. reflexivity.
Qed.

Lemma send_wrapper_type sent m : msg_type (snd (send_wrapper sent m)) = msg_type m.
Proof.
  unfold send_wrapper.
  destruct (bool_decide (msg_type m = "http.response.start")); [reflexivity |].
  destruct (bool_decide (msg_type m = "http.response.body")); [| reflexivity].
  destruct sent; reflexivity.
Qed.

Lemma send_wrapper_start sent m :
  is_start m = true ->
  let m' := snd (send_wrapper sent m) in
  fst (send_wrapper sent m) = sent /\ is_body m' = false /\
  get_header "X-Accel-Buffering" (msg_headers m') = Some "no" /\
  get_header "Transfer-Encoding" (msg_headers m') = Some "chunked" /\
  get_header "Content-Type" (msg_headers m') = Some "text/event-stream".
Proof.
  unfold is_start, is_body, send_wrapper. intros Hs. rewrite Hs. simpl.
  apply bool_decide_eq_true in Hs. rewrite Hs.
  unfold get_header, set_header. conjs; try reflexivity.
  - rewrite !get_raw_set_raw_ne by (vm_compute; discriminate).
    apply get_raw_set_raw_eq.
  - rewrite get_raw_set_raw_ne by (vm_compute; discriminate).
    apply get_raw_set_raw_eq.
  - apply get_raw_set_raw_eq.
Qed.

Lemma send_wrapper_body sent m :
  is_body m = true ->
  let m' := snd (send_wrapper sent m) in
  fst (send_wrapper sent m) = true /\ is_body m' = true /\
  body_of m' = if sent then body_of m else padding ++ body_of m.
Proof.
  unfold is_body, send_wrapper, body_of. intros Hb.
  assert (Hs : bool_decide (msg_type m = "http.response.start") = false).
  { apply bool_decide_eq_true in Hb. rewrite Hb. reflexivity. }
  rewrite Hs, Hb.
  destruct sent; cbn [negb fst snd msg_type msg_body default]; rewrite ?Hb;
    conjs; reflexivity.
Qed.

Lemma send_wrapper_other sent m :
  is_start m = false -> is_body m = false ->
  send_wrapper sent m = (sent, m).
Proof.
  unfold is_start, is_body, send_wrapper. intros -> ->. reflexivity.
Qed.

Lemma send_all_bodies messages : forall sent,
  bodies (send_all sent messages)
  = if sent then bodies messages
    else match bodies messages with
         | [] => []
         | first :: rest => (padding ++ first) :: rest
         end.
Proof.
  unfold bodies.
  induction messages as [| m messages IH]; intros sent;
    cbn [send_all List.filter map].
  { by destruct sent. }
  destruct (send_wrapper sent m) as [sent' m'] eqn:Hw.
  cbn [List.filter map].
  destruct (is_body m) eqn:Hb.
  - pose proof (send_wrapper_body sent m Hb) as (H1 & H2 & H3).
    rewrite Hw in H1, H2, H3. cbn [fst snd] in H1, H2, H3. subst sent'.
    rewrite H2. cbn [map]. rewrite H3, IH. by destruct sent.
  - destruct (is_start m) eqn:Hs.
    + pose proof (send_wrapper_start sent m Hs) as (H1 & H2 & _).
      rewrite Hw in H1, H2. cbn [fst snd] in H1, H2. subst sent'.
      rewrite H2. apply IH.
    + rewrite (send_wrapper_other sent m Hs Hb) in Hw.
      injection Hw as <- <-. rewrite Hb. apply IH.
Qed.

Lemma send_all_starts messages : forall sent,
  Forall (fun m => is_start m = true ->
            get_header "X-Accel-Buffering" (msg_headers m) = Some "no" /\
            get_header "Transfer-Encoding" (msg_headers m) = Some "chunked" /\
            get_header "Content-Type" (msg_headers m) = Some "text/event-stream")
    (send_all sent messages).
Proof.
  induction messages as [| m messages IH]; intros sent; simpl; [constructor |].
  destruct (send_wrapper sent m) as [sent' m'] eqn:Hw.
  constructor; [| apply IH].
  intros Hs'. assert (Hs : is_start m = true).
  { unfold is_start in *. rewrite <- (send_wrapper_type sent m), Hw. exact Hs'. }
  pose proof (send_wrapper_start sent m Hs) as (_ & _ & H3 & H4 & H5).
  rewrite Hw in H3, H4, H5. by conjs.
Qed.

Lemma send_all_types messages : forall sent,
  map msg_type (send_all sent messages) = map msg_type messages.
Proof.
  induction messages as [| m messages IH]; intros sent; simpl; [reflexivity |].
  pose proof (send_wrapper_type sent m) as Ht.
  destruct (send_wrapper sent m) as [sent' m']. simpl in *.
  by rewrite Ht, IH.
Qed.

(** C9. On a connection the wrapper passes on every message of the
    response, in order and with its type.  The first body message, and
    no other, gets the filler in front of its payload: a colon, a space,
    65536 spaces and two line feeds, 65540 bytes.  Every start message
    leaves with [X-Accel-Buffering: no], [Transfer-Encoding: chunked]
    and [Content-Type: text/event-stream]. *)
Theorem padding_sent_once (messages : list asgi_message) :
  let sent := MCPSSEResponse messages in
  map msg_type sent = map msg_type messages /\
  bodies sent = match bodies messages with
                | [] => []
                | first :: rest => (padding ++ first) :: rest
                end /\
  Forall (fun m => is_start m = true ->
            get_header "X-Accel-Buffering" (msg_headers m) = Some "no" /\
            get_header "Transfer-Encoding" (msg_headers m) = Some "chunked" /\
            get_header "Content-Type" (msg_headers m) = Some "text/event-stream")
    sent /\
  padding = ":"%char :: " "%char :: repeat " "%char (N.to_nat 65536) ++ [LF; LF] /\
  N.of_nat (length padding) = 65540%N.
Proof.
  unfold MCPSSEResponse. conjs.
  - apply send_all_types.
  - apply (send_all_bodies messages false).
  - apply send_all_starts.
  - reflexivity.
  - unfold padding, PADDING_SPACES.
    rewrite List.length_app, List.length_app, repeat_length.
    change (length (b ": ")) with 2%nat. change (length [LF; LF]) with 2%nat.
    rewrite !Nat2N.inj_add, N2Nat.id. reflexivity.
Qed.

(** ** Worked examples *)

(** Cleanup of the demo session, a second time. *)
Lemma cleanup_session_idempotent_witness :
  exists w2,
    cleanup_session demo_sid clean_world = (inr tt, w2) /\
    tbl w2 = tbl clean_world /\
    session_items (tbl w2) (uuid_str demo_sid) = [].
Proof.
  apply (cleanup_session_idempotent demo_sid demo_world clean_world).
  - vm_compute. reflexivity.
  - vm_compute. exact I.
Defined.

(** The administrative reset on a table of four records, two to a page. *)
Lemma wipe_table_first_page_only_witness :
  exists w',
    wipe_table demo_world = (inr tt, w') /\
    size (tbl w') = (size (tbl demo_world) - Pos.to_nat (page_limit demo_world))%nat /\
    tbl w' <> ∅.
Proof.
  apply (wipe_table_first_page_only demo_world).
  - reflexivity.
  - vm_compute. lia.
Defined.

(** Of the four records of [demo_world] the administrative reset leaves
    two. *)
Example wipe_table_leaves_records :
  size (tbl (snd (wipe_table demo_world))) = 2%nat.
Proof. vm_compute. reflexivity. Qed.

(** A POST whose body is the text [not json]. *)
Lemma post_malformed_body_is_server_error_witness :
  handle_post_message sample_lib (demo_post "not json") 1 empty_world
  = (inr {| content := "Expecting value: line 1 column 1 (char 0)";
            status_code := 500 |}, empty_world).
Proof.
  apply (post_malformed_body_is_server_error sample_lib (demo_post "not json") 1
           empty_world demo_sid Sample.JSONDecodeError).
  - vm_compute. reflexivity.
  - vm_compute. reflexivity.
  - vm_compute. reflexivity.
Defined.

(** C2, counterexample. Two POSTs of one session whose clock readings
    differ by less than a microsecond are both accepted, get the same
    position, and the second replaces the record of the first. *)
Lemma post_same_microsecond_overwrites :
  let '(r1, w1) := handle_post_message sample_lib (demo_post (dq "{'n': 1}"))
                     reading_1 empty_world in
  let '(r2, w2) := handle_post_message sample_lib (demo_post (dq "{'n': 2}"))
                     reading_2 w1 in
  (reading_1 < reading_2)%Q /\
  r1 = inr {| content := "Accepted"; status_code := 202 |} /\
  r2 = inr {| content := "Accepted"; status_code := 202 |} /\
  micros reading_1 = 1000000 /\ micros reading_2 = 1000000 /\
  map_to_list (tbl w1) = [(demo_key 1000000, dq "{'n': 1}")] /\
  map_to_list (tbl w2) = [(demo_key 1000000, dq "{'n': 2}")].
Proof. vm_compute. conjs; reflexivity. Qed.

(** A POST at time 10 into a mailbox whose positions are 5, 7 and 9. *)
Lemma post_position_witness :
  exists session_id message_json,
    UUID sample_lib (default "" (query_session_id (demo_post request_text)))
    = Some session_id /\
    json_loads sample_lib (body (demo_post request_text)) = inr message_json /\
    tbl (snd (handle_post_message sample_lib (demo_post request_text) 10 demo_world))
    = <[(uuid_str session_id, micros 10) := json_dumps sample_lib message_json]>
        (tbl demo_world) /\
    NoDup (map (fun kv : key * string => snd (fst kv))
             (session_items
                (tbl (snd (handle_post_message sample_lib (demo_post request_text)
                             10 demo_world)))
                (uuid_str session_id))) /\
    (forall k v, k <> (uuid_str session_id, micros 10) ->
                 tbl demo_world !! k = Some v ->
                 tbl (snd (handle_post_message sample_lib (demo_post request_text)
                             10 demo_world)) !! k = Some v) /\
    ((forall k, fst k = uuid_str session_id -> is_Some (tbl demo_world !! k) ->
                snd k < micros 10) ->
     forall k v, tbl demo_world !! k = Some v ->
                 tbl (snd (handle_post_message sample_lib (demo_post request_text)
                             10 demo_world)) !! k = Some v /\
                 (fst k = uuid_str session_id -> snd k < micros 10)).
Proof.
  apply (post_position sample_lib (demo_post request_text) 10 demo_world
           (snd (handle_post_message sample_lib (demo_post request_text) 10
                   demo_world))
           {| content := "Accepted"; status_code := 202 |}).
  - vm_compute. reflexivity.
  - reflexivity.
Defined.

(** C1, counterexample. The session is opened at time 0 and the poll
    loop finds it idle at time 11: Cleanup is called from the loop and
    again from the [finally] block of [run_response]. *)
Lemma timeout_cleans_up_twice :
  serve sample_lib demo_scope 0 [Tick 11 11] demo_world
  = (inr timed_out_session, clean_world) /\
  closed timed_out_session /\
  count_finally (log timed_out_session) = 1%nat /\
  count_cleanups (log timed_out_session) = 2%nat.
Proof. vm_compute. conjs; reflexivity. Qed.

(** The demo session polls at time 1, which forwards a request and
    sets the last activity to 2, and is found idle at time 13: the
    inactivity timeout is the first trigger, after an ordinary poll. *)
Lemma cleanup_once_or_twice_witness :
  let evs := [Tick 1 2; Tick 13 13] in
  let s := polled_timed_out_session in
  (run sample_lib [Tick 1 2] (demo_session, demo_world)
   = (polled_session, demo_world) /\
   (INACTIVITY_TIMEOUT < 13 - last_activity polled_session)%Q) /\
  count_cleanups (log s) = 2%nat /\
  count_finally (log s) = 1%nat /\
  count_from FromResponse (log s) = 1%nat /\
  (count_from FromPoller (log s) <= 1)%nat /\
  count_cleanups (log s) = (1 + count_from FromPoller (log s))%nat /\
  (count_cleanups (log s) = 2%nat
   <-> timeout_fires sample_lib evs (demo_session, demo_world)) /\
  (poller demo_session = Running /\ response demo_session = Running /\
   host demo_session = Running /\ last_activity demo_session = 0%Q) /\
  (forall pre ev post s1 w1,
     evs = pre ++ ev :: post ->
     run sample_lib pre (demo_session, demo_world) = (s1, w1) ->
     poller s1 = Running -> response s1 = Running -> host s1 = Running ->
     (forall now now',
        ev = Tick now now' ->
        (INACTIVITY_TIMEOUT < now - last_activity s1)%Q ->
        count_cleanups (log s) = 2%nat) /\
     (ev = EngineExit \/ ev = ExternalCancel ->
      count_cleanups (log s) = 1%nat) /\
     (ev = ClientDisconnect \/ ev = ResponseError ->
      (count_cleanups (log s) = 2%nat
       <-> timeout_fires sample_lib post (step sample_lib ev (s1, w1))))).
Proof.
  assert (Hpoll : run sample_lib [Tick 1 2] (demo_session, demo_world)
                  = (polled_session, demo_world))
    by (vm_compute; reflexivity).
  assert (Hidle : (INACTIVITY_TIMEOUT < 13 - last_activity polled_session)%Q)
    by (vm_compute; reflexivity).
  pose proof (cleanup_once_or_twice sample_lib demo_scope 0
                [Tick 1 2; Tick 13 13] demo_world clean_world demo_session
                polled_timed_out_session) as H.
  destruct H as (H1 & H2 & H3 & H4 & H5 & H0 & H6).
  - vm_compute. reflexivity.
  - vm_compute. reflexivity.
  - vm_compute. conjs; reflexivity.
  - cbv zeta. split; [split; assumption |]. split.
    + destruct (H6 [Tick 1 2] (Tick 13 13) [] polled_session demo_world
                  eq_refl Hpoll eq_refl eq_refl eq_refl) as (Htimeout & _).
      exact (Htimeout 13%Q 13%Q eq_refl Hidle).
    + repeat (split; [assumption |]). assumption.
Defined.

(** The same poll, then the end of the engine: Cleanup is called once. *)
Example engine_exit_after_a_poll :
  let st := serve sample_lib demo_scope 0 [Tick 1 2; EngineExit] demo_world in
  exists s, fst st = inr s /\ closed s /\ count_cleanups (log s) = 1%nat.
Proof. eexists. vm_compute. conjs; reflexivity. Qed.

(** A client disconnect, then the end of the engine: Cleanup is called
    once. *)
Example disconnect_then_engine_exit :
  serve sample_lib demo_scope 0 [ClientDisconnect; EngineExit] demo_world
  = (inr ended_session, clean_world) /\
  closed ended_session /\ count_cleanups (log ended_session) = 1%nat.
Proof. vm_compute. conjs; reflexivity. Qed.

(** A client disconnect, then a poll that finds the session idle:
    Cleanup is called twice. *)
Example disconnect_then_timeout :
  let st := serve sample_lib demo_scope 0 [ClientDisconnect; Tick 11 11] demo_world in
  exists s, fst st = inr s /\ closed s /\ count_cleanups (log s) = 2%nat.
Proof. eexists. vm_compute. conjs; reflexivity. Qed.

(** The demo session, opened at time 0, polled at time 11. *)
Lemma idle_session_is_torn_down_witness :
  exists s' w',
    step sample_lib (Tick 11 11) (demo_session, demo_world) = (s', w') /\
    closed s' /\ cancelled s' = true /\
    session_items (tbl w') (uuid_str (sid demo_session)) = [] /\
    forall evs w2, fst (run sample_lib evs (s', w2)) = s'.
Proof.
  apply (idle_session_is_torn_down sample_lib demo_session demo_world 11 11).
  - reflexivity.
  - reflexivity.
  - vm_compute. reflexivity.
Defined.

(** C5, counterexample. A stream request without a session identifier
    raises out of [connect_sse]; the caller gets no client-error
    response. *)
Lemma stream_without_session_id_raises :
  stream_outcome (fst (serve sample_lib bare_scope 0 [] empty_world))
  = Raised (ValueError "session_id query parameter is required") /\
  ~ client_error
      (stream_outcome (fst (serve sample_lib bare_scope 0 [] empty_world))).
Proof. split; [vm_compute; reflexivity | vm_compute; tauto]. Qed.

(** A stream request with an empty query string. *)
Lemma stream_open_raises_before_store_witness :
  exists msg,
    serve sample_lib bare_scope 0 [Tick 1 1; ClientDisconnect] demo_world
    = (inl (ValueError msg), demo_world).
Proof.
  apply (stream_open_raises_before_store sample_lib bare_scope 0
           [Tick 1 1; ClientDisconnect] demo_world).
  left. vm_compute. reflexivity.
Defined.

(** A batch of a record that does not validate and a request. *)
Lemma poison_record_is_skipped_witness :
  let items := [demo_item 5 poison_text; demo_item 7 request_text] in
  exists s',
    step sample_lib (Tick 1 2) (demo_session, demo_world) = (s', demo_world) /\
    StronglySorted (fun x y => timestamp x < timestamp y) items /\
    read_stream s'
    = read_stream demo_session
      ++ (if streams_closed demo_session then [] else decoded sample_lib items) /\
    poller s' = Running /\ response s' = response demo_session /\
    log s' = log demo_session /\
    last_timestamp s' = max_position (last_timestamp demo_session) items /\
    Forall (fun it => timestamp it <= last_timestamp s') items /\
    (items <> [] -> exists it, it ∈ items /\ last_timestamp s' = timestamp it) /\
    forall evs s2 w2,
      run sample_lib evs (s', demo_world) = (s2, w2) ->
      last_timestamp s' <= last_timestamp s2 /\
      forall r w3,
        table_query (uuid_str (sid s2)) (Some (last_timestamp s2)) None w2
        = (inr r, w3) ->
        Forall (fun x => Forall (fun it => timestamp it < timestamp x) items)
          (fst r).
Proof.
  apply (poison_record_is_skipped sample_lib demo_session demo_world demo_world
           1 2 [demo_item 5 poison_text; demo_item 7 request_text]
           (Some (demo_key 7))).
  - reflexivity.
  - vm_compute. reflexivity.
  - vm_compute. reflexivity.
Defined.

(** That turn forwards the request that follows the poison record and
    leaves the cursor at 7. *)
Example poison_then_request :
  let s' := fst (step sample_lib (Tick 1 2) (demo_session, demo_world)) in
  length (read_stream s') = 1%nat /\ last_timestamp s' = 7 /\
  last_activity s' = 2%Q /\ poller s' = Running.
Proof. vm_compute. conjs; reflexivity. Qed.

(** A batch of one record that does not validate, polled at time 9. *)
Lemma poison_batch_resets_activity_witness :
  let items := [demo_item 5 poison_text] in
  exists s',
    step sample_lib (Tick 9 (19 # 2)) (demo_session, poison_world)
    = (s', poison_world) /\
    last_activity s' = (19 # 2)%Q /\
    poller s' = Running /\ response s' = response demo_session /\
    log s' = log demo_session /\
    (Forall (fun it => is_ok (model_validate_json sample_lib (message it)) = false)
       items ->
     read_stream s' = read_stream demo_session) /\
    forall t t' w2,
      (t - (19 # 2) <= INACTIVITY_TIMEOUT)%Q ->
      poller (fst (step sample_lib (Tick t t') (s', w2))) = Running.
Proof.
  apply (poison_batch_resets_activity sample_lib demo_session poison_world
           poison_world 9 (19 # 2) [demo_item 5 poison_text] None).
  - reflexivity.
  - vm_compute. reflexivity.
  - vm_compute. reflexivity.
  - discriminate.
Defined.

(** A mailbox with nothing but a poison record keeps the demo session
    alive: polled at 9 and again at 19, the session is
    still running although no message went to the engine, and it would
    have timed out at 19 without the record. *)
Example poison_keeps_session_alive :
  let st := run sample_lib [Tick 9 (19 # 2); Tick 19 19] (demo_session, poison_world) in
  let st' := run sample_lib [Tick 9 (19 # 2); Tick 19 19] (demo_session, empty_world) in
  poller (fst st) = Running /\ read_stream (fst st) = [] /\
  poller (fst st') = Finished.
Proof. vm_compute. conjs; reflexivity. Qed.
